(** * WEB_14: contacts REST backend -- authentication flow and contact repository

    A shallow embedding of
      - [src/database/models.py]      (the two tables),
      - [src/repository/users.py]     (user directory),
      - [src/repository/contacts.py]  (contact queries),
      - [src/routes/auth.py]          (signup / login / refresh / confirmation),
      - [src/routes/contacts.py]      (contact endpoints),
      - [src/routes/users.py]         (avatar upload),
    followed by the properties of the authentication state machine and of
    the per-user contact scoping.

    Every coroutine of the source is a computation in the monad [M]: it
    receives the database (and the request's pending background tasks),
    and either returns a value or raises, together with the state it
    leaves behind.  A [db.commit()] that happened before a [raise] is
    therefore still visible in the final state, as in the source. *)

From Stdlib Require Import String Ascii ZArith List Bool Lia Permutation.
From Stdlib Require Import DecimalString DecimalPos DecimalZ.
Import ListNotations.

Local Open Scope string_scope.
Local Open Scope Z_scope.

(** ** Python values used by the embedding *)

(** Exceptions that can leave a route.  [HTTPException] is the only one the
    framework turns into the given status code; the others surface as an
    internal server error (500). *)
Inductive Exn : Type :=
| HTTPException (status_code : Z) (detail : string)
| AttributeError (msg : string)      (* attribute access on [None] *)
| MultipleResultsFound               (* [scalar_one_or_none] on several rows *)
| IntegrityError                     (* a constraint rejected the commit *)
| DataError.                         (* a value does not fit its column *)

Inductive Outcome (A : Type) : Type :=
| Return (a : A)
| Raise (e : Exn).
Arguments Return {A} a.
Arguments Raise {A} e.

Definition HTTP_401_UNAUTHORIZED : Z := 401.
Definition HTTP_404_NOT_FOUND : Z := 404.
Definition HTTP_409_CONFLICT : Z := 409.
Definition HTTP_400_BAD_REQUEST : Z := 400.

(** [a == b] on [str | None] values. *)
Definition opt_str_eqb (a b : option string) : bool :=
  match a, b with
  | Some x, Some y => String.eqb x y
  | None, None => true
  | _, _ => false
  end.

Definition opt_Z_eqb (a b : option Z) : bool :=
  match a, b with
  | Some x, Some y => Z.eqb x y
  | None, None => true
  | _, _ => false
  end.

(** ** datetime.date

    A [date] is a calendar triple.  Ordering of dates and the addition of a
    [timedelta(days=n)] go through the proleptic Gregorian ordinal, as in
    CPython's [datetime] ([_is_leap], [_days_before_year],
    [_days_in_month], [_days_before_month], [_ymd2ord]). *)
Module date.

Record t : Type := mk { year : Z; month : Z; day : Z }.

Definition _is_leap (y : Z) : bool :=
  (y mod 4 =? 0) && (negb (y mod 100 =? 0) || (y mod 400 =? 0)).

Definition _days_before_year (y : Z) : Z :=
  let y' := y - 1 in y' * 365 + y' / 4 - y' / 100 + y' / 400.

Definition _DAYS_IN_MONTH (m : Z) : Z :=
  match m with
  | 1 => 31 | 2 => 28 | 3 => 31 | 4 => 30 | 5 => 31 | 6 => 30
  | 7 => 31 | 8 => 31 | 9 => 30 | 10 => 31 | 11 => 30 | 12 => 31
  | _ => -1
  end.

Definition _DAYS_BEFORE_MONTH (m : Z) : Z :=
  match m with
  | 1 => 0 | 2 => 31 | 3 => 59 | 4 => 90 | 5 => 120 | 6 => 151
  | 7 => 181 | 8 => 212 | 9 => 243 | 10 => 273 | 11 => 304 | 12 => 334
  | _ => -1
  end.

Definition _days_in_month (y m : Z) : Z :=
  if (m =? 2) && _is_leap y then 29 else _DAYS_IN_MONTH m.

Definition _days_before_month (y m : Z) : Z :=
  _DAYS_BEFORE_MONTH m + (if (2 <? m) && _is_leap y then 1 else 0).

Definition toordinal (d : t) : Z :=
  _days_before_year (year d) + _days_before_month (year d) (month d) + day d.

(** The range check of the [date] constructor (MINYEAR = 1, MAXYEAR = 9999). *)
Definition valid (d : t) : Prop :=
  1 <= year d <= 9999 /\ 1 <= month d <= 12 /\
  1 <= day d <= _days_in_month (year d) (month d).

(** [a <= b] on dates. *)
Definition leb (a b : t) : bool := toordinal a <=? toordinal b.

(** [a <= b + timedelta(days=n)] and [a + timedelta(days=n) >= b], on the
    ordinals: [b + timedelta(days=n)] is the date of ordinal
    [toordinal b + n]. *)
Definition leb_plus_days (a b : t) (n : Z) : bool :=
  toordinal a <=? toordinal b + n.

End date.

(** ** src/database/models.py

    The rows carry the columns that the repositories and routes read or
    assign.  The two timestamp columns ([created_at], and [updated_at],
    which the database rewrites on every UPDATE of a row) are not
    represented: a statement about "the row" below speaks of the columns
    listed here and says nothing about the timestamps. *)

Module User.
Record t : Type := mk {
  id : Z;
  username : string;
  email : string;                 (* unique, not null *)
  password : string;              (* the stored hash *)
  avatar : option string;
  refresh_token : option string;
  confirmed : bool                (* default False *)
}.

Definition set_refresh_token (tok : option string) (u : t) : t :=
  mk (id u) (username u) (email u) (password u) (avatar u) tok (confirmed u).

Definition set_confirmed (b : bool) (u : t) : t :=
  mk (id u) (username u) (email u) (password u) (avatar u) (refresh_token u) b.

Definition set_avatar (a : option string) (u : t) : t :=
  mk (id u) (username u) (email u) (password u) a (refresh_token u) (confirmed u).
End User.

Module Contact.
Record t : Type := mk {
  id : Z;
  firstname : string;
  surname : string;
  email : string;
  phone : string;
  birthday : date.t;
  details : option string;
  user_id : option Z              (* foreign key users.id, nullable *)
}.
End Contact.

(** ** Request bodies (src/schemas) *)

(** The fields of [UserSchema] that [signup] and [create_user] read. *)
Module UserSchema.
Record t : Type := mk { username : string; email : string; password : string }.
Definition set_password (p : string) (b : t) : t := mk (username b) (email b) p.
End UserSchema.

Module ContactSchema.
Record t : Type := mk {
  firstname : string;
  surname : string;
  email : string;
  phone : string;
  birthday : date.t;
  details : option string
}.
End ContactSchema.

(** In [ContactUpdateSchema] every text field is [Optional]. *)
Module ContactUpdateSchema.
Record t : Type := mk {
  firstname : option string;
  surname : option string;
  email : option string;
  phone : option string;
  birthday : date.t;
  details : option string
}.
End ContactUpdateSchema.

Module TokenSchema.
Record t : Type := mk {
  access_token : string;
  refresh_token : string;
  token_type : string
}.
End TokenSchema.

(** ** The state a request runs against *)

(** [bt.add_task(send_email, email, username, host)] *)
Inductive Task : Type :=
| send_email (email username host : string).

(** The two tables, in row order, and the background tasks queued by the
    request so far.  The timestamp columns, which no operation below reads,
    are left out. *)
Record State : Type := mkState {
  users : list User.t;
  contacts : list Contact.t;
  bt : list Task
}.

Definition with_users (f : list User.t -> list User.t) (s : State) : State :=
  mkState (f (users s)) (contacts s) (bt s).

Definition with_contacts (f : list Contact.t -> list Contact.t) (s : State) : State :=
  mkState (users s) (f (contacts s)) (bt s).

Definition add_task (t : Task) : State -> State :=
  fun s => mkState (users s) (contacts s) (bt s ++ [t])%list.

(** ** The monad of a request handler *)

Definition M (A : Type) : Type := State -> Outcome A * State.

Definition ret {A} (a : A) : M A := fun s => (Return a, s).

Definition raise {A} (e : Exn) : M A := fun s => (Raise e, s).

Definition bind {A B} (m : M A) (k : A -> M B) : M B :=
  fun s =>
    match m s with
    | (Return a, s') => k a s'
    | (Raise e, s') => (Raise e, s')
    end.

Definition get_state : M State := fun s => (Return s, s).

Definition modify (f : State -> State) : M unit := fun s => (Return tt, f s).

Declare Scope py_scope.
Delimit Scope py_scope with py.
Notation "x <- m ;; k" := (bind m (fun x => k))
  (at level 61, m at next level, right associativity) : py_scope.
Notation "m ;;; k" := (bind m (fun _ => k))
  (at level 61, right associativity) : py_scope.
Local Open Scope py_scope.

(** [Result.scalar_one_or_none()] *)
Definition scalar_one_or_none {A} (rows : list A) : M (option A) :=
  match rows with
  | [] => ret None
  | [x] => ret (Some x)
  | _ :: _ :: _ => raise MultipleResultsFound
  end.

(** Next value of an auto-increment primary key. *)
Definition next_id (ids : list Z) : Z := 1 + fold_right Z.max 0 ids.

Definition lift {A} (o : Outcome A) : M A := fun s => (o, s).

(** The error of an attribute access [None.name]. *)
Definition NoneType_has_no_attribute (name : string) : Exn :=
  AttributeError ("'NoneType' object has no attribute '" ++ name ++ "'").

(** Attribute access [obj.name] on a value that may be [None]. *)
Definition getattr {A B} (obj : option A) (name : string) (field : A -> B) : M B :=
  match obj with
  | Some x => ret (field x)
  | None => raise (NoneType_has_no_attribute name)
  end.

(** ** Collaborators whose sources are not part of the embedding *)

(** [src/services/auth.py], the [auth_service] object.  The token functions
    read the clock; the reading is their first argument.  The second
    argument of the two [create_*] functions is the ["sub"] entry of [data]. *)
Class Auth : Type := {
  get_password_hash : string -> string;
  verify_password : string -> string -> bool;
  create_access_token : Z -> string -> string;
  create_refresh_token : Z -> string -> string;
  decode_refresh_token : Z -> string -> Outcome string;
  get_email_from_token : Z -> string -> Outcome string
}.

(** [libgravatar], the database ([ILIKE], and the order in which it yields
    the rows of a paged SELECT that has no ORDER BY), and
    [src/conf/messages.py].  [row_order limit offset rows] is the order in
    which the query with that LIMIT and OFFSET sees the selected [rows]; it
    is some rearrangement of them, and need not be the same from one query
    to the next. *)
Class Env : Type := {
  Gravatar_get_image : string -> option string;   (* [None]: the call raised *)
  ilike : string -> string -> bool;               (* column value, pattern *)
  ACCOUNT_EXIST : string;
  row_order : nat -> nat -> list Contact.t -> list Contact.t;
  row_order_permutes :
    forall (limit offset : nat) (rows : list Contact.t),
      Permutation (row_order limit offset rows) rows
}.

(** ** src/repository/users.py *)
Module repositories_users.
Section Repo.
Context {env : Env}.

(** [select(User).filter_by(email=email)] *)
Definition rows_with_email (email : string) (s : State) : list User.t :=
  filter (fun u => User.email u =? email)%string (users s).

Definition get_user_by_email (email : string) : M (option User.t) :=
  s <- get_state ;;
  scalar_one_or_none (rows_with_email email s).

(** The row of the ORM object [user] is the one with its primary key. *)
Definition update_row (user : User.t) (f : User.t -> User.t) : M unit :=
  modify (with_users (map (fun r => if User.id r =? User.id user then f r else r))).

Definition create_user (body : UserSchema.t) : M User.t :=
  let avatar := Gravatar_get_image (UserSchema.email body) in
  s <- get_state ;;
  let new_user :=
    User.mk (next_id (map User.id (users s)))
            (UserSchema.username body) (UserSchema.email body)
            (UserSchema.password body) avatar None false in
  if existsb (fun u => User.email u =? UserSchema.email body)%string (users s)
  then raise IntegrityError           (* [unique=True] on users.email *)
  else
    modify (with_users (fun rows => (rows ++ [new_user])%list)) ;;;
    ret new_user.

Definition update_token (user : User.t) (token : option string) : M unit :=
  update_row user (User.set_refresh_token token).

Definition confirmed_email (email : string) : M unit :=
  user <- get_user_by_email email ;;
  match user with
  | Some user => update_row user (User.set_confirmed true)
  | None => raise (NoneType_has_no_attribute "confirmed")
  end.

Definition update_avatar (email url : string) : M User.t :=
  user <- get_user_by_email email ;;
  match user with
  | Some user =>
      update_row user (User.set_avatar (Some url)) ;;;
      ret (User.set_avatar (Some url) user)
  | None => raise (NoneType_has_no_attribute "avatar")
  end.
End Repo.
End repositories_users.

(** ** src/routes/auth.py *)
Module routes_auth.
Section Routes.
Context {auth_service : Auth} {env : Env}.

Record Message : Type := mkMessage { message : string }.

Definition signup (body : UserSchema.t) (base_url : string) : M User.t :=
  exist_user <- repositories_users.get_user_by_email (UserSchema.email body) ;;
  match exist_user with
  | Some _ => raise (HTTPException HTTP_409_CONFLICT ACCOUNT_EXIST)
  | None =>
      let body :=
        UserSchema.set_password (get_password_hash (UserSchema.password body)) body in
      new_user <- repositories_users.create_user body ;;
      modify (add_task (send_email (User.email new_user) (User.username new_user)
                                   base_url)) ;;;
      ret new_user
  end.

Definition login (now : Z) (username password : string) : M TokenSchema.t :=
  user <- repositories_users.get_user_by_email username ;;
  match user with
  | None => raise (HTTPException HTTP_401_UNAUTHORIZED "Invalid email")
  | Some user =>
      if negb (User.confirmed user) then
        raise (HTTPException HTTP_401_UNAUTHORIZED "Email is not confirmed")
      else if negb (verify_password password (User.password user)) then
        raise (HTTPException HTTP_401_UNAUTHORIZED "Invalid password")
      else
        let access_token := create_access_token now (User.email user) in
        let refresh_token := create_refresh_token now (User.email user) in
        repositories_users.update_token user (Some refresh_token) ;;;
        ret (TokenSchema.mk access_token refresh_token "bearer")
  end.

Definition refresh_token (now : Z) (token : string) : M TokenSchema.t :=
  email <- lift (decode_refresh_token now token) ;;
  user <- repositories_users.get_user_by_email email ;;
  match user with
  | None => raise (NoneType_has_no_attribute "refresh_token")
  | Some user =>
      if negb (opt_str_eqb (User.refresh_token user) (Some token)) then
        repositories_users.update_token user None ;;;
        raise (HTTPException HTTP_401_UNAUTHORIZED "Invalid refresh token")
      else
        let access_token := create_access_token now email in
        let refresh_token := create_refresh_token now email in
        repositories_users.update_token user (Some refresh_token) ;;;
        ret (TokenSchema.mk access_token refresh_token "bearer")
  end.

Definition confirmed_email (now : Z) (token : string) : M Message :=
  email <- lift (get_email_from_token now token) ;;
  user <- repositories_users.get_user_by_email email ;;
  match user with
  | None => raise (HTTPException HTTP_400_BAD_REQUEST "Verification error")
  | Some user =>
      if User.confirmed user then
        ret (mkMessage "Your email is already confirmed")
      else
        repositories_users.confirmed_email email ;;;
        ret (mkMessage "Email confirmed")
  end.

Definition request_email (email base_url : string) : M Message :=
  user <- repositories_users.get_user_by_email email ;;
  confirmed <- getattr user "confirmed" User.confirmed ;;
  if confirmed then
    ret (mkMessage "Your email is already confirmed")
  else
    match user with                                   (* [if user:] *)
    | Some user =>
        modify (add_task (send_email (User.email user) (User.username user) base_url))
    | None => ret tt
    end ;;;
    ret (mkMessage "Check your email for confirmation.")
  .
End Routes.
End routes_auth.

(** ** src/repository/contacts.py *)
Module repositories_contacts.
Section Repo.
Context {env : Env}.

(** [filter_by(user=user)]: the foreign key equals the user's primary key. *)
Definition owned_by (user : User.t) (c : Contact.t) : bool :=
  opt_Z_eqb (Contact.user_id c) (Some (User.id user)).

(** [limit] and [offset] are non-negative (the route's [Query(ge=...)]).
    The statement has no ORDER BY: the page is cut out of the user's rows
    in whatever order the database yields them for this query. *)
Definition get_contacts (limit offset : nat) (user : User.t) : M (list Contact.t) :=
  s <- get_state ;;
  ret (firstn limit
         (skipn offset (row_order limit offset (filter (owned_by user) (contacts s))))).

Definition search_contacts (query : string) (user : User.t) : M (list Contact.t) :=
  s <- get_state ;;
  ret (filter (fun c => ilike (Contact.firstname c) query
                        || ilike (Contact.surname c) query
                        || ilike (Contact.email c) query)
              (filter (owned_by user) (contacts s))).

(** [select(Contact).filter_by(id=contact_id, user=user)] *)
Definition rows_with_id (contact_id : Z) (user : User.t) (s : State) : list Contact.t :=
  filter (fun c => (Contact.id c =? contact_id) && owned_by user c) (contacts s).

Definition select_contact (contact_id : Z) (user : User.t) : M (option Contact.t) :=
  s <- get_state ;;
  scalar_one_or_none (rows_with_id contact_id user s).

Definition get_contact (contact_id : Z) (user : User.t) : M (option Contact.t) :=
  select_contact contact_id user.

(** The widths of the text columns of [contacts] in [models.py]:
    [String(25)], [String(25)], [String(50)], [String(20)], [String(150)].
    [ContactSchema] puts no bound on the length of its fields. *)
Definition fits_columns (body : ContactSchema.t) : bool :=
  (String.length (ContactSchema.firstname body) <=? 25)%nat
  && (String.length (ContactSchema.surname body) <=? 25)%nat
  && (String.length (ContactSchema.email body) <=? 50)%nat
  && (String.length (ContactSchema.phone body) <=? 20)%nat
  && match ContactSchema.details body with
     | Some details => (String.length details <=? 150)%nat
     | None => true
     end.

(** The commit rejects a value that is wider than its column; nothing is
    stored then. *)
Definition create_contact (body : ContactSchema.t) (user : User.t) : M Contact.t :=
  s <- get_state ;;
  let contact :=
    Contact.mk (next_id (map Contact.id (contacts s)))
               (ContactSchema.firstname body) (ContactSchema.surname body)
               (ContactSchema.email body) (ContactSchema.phone body)
               (ContactSchema.birthday body) (ContactSchema.details body)
               (Some (User.id user)) in
  if fits_columns body then
    modify (with_contacts (fun rows => (rows ++ [contact])%list)) ;;;
    ret contact
  else raise DataError.

(** The four text columns are [NOT NULL]: a [None] among the assigned
    values is rejected at commit, which leaves the table as it was. *)
Definition update_contact (contact_id : Z) (body : ContactUpdateSchema.t) (user : User.t)
  : M (option Contact.t) :=
  contact <- select_contact contact_id user ;;
  match contact with
  | Some contact =>
      match ContactUpdateSchema.firstname body, ContactUpdateSchema.surname body,
            ContactUpdateSchema.email body, ContactUpdateSchema.phone body with
      | Some firstname, Some surname, Some email, Some phone =>
          let assign (r : Contact.t) :=
            Contact.mk (Contact.id r) firstname surname email phone
                       (ContactUpdateSchema.birthday body)
                       (ContactUpdateSchema.details body)
                       (Contact.user_id r) in
          modify (with_contacts
                    (map (fun r => if Contact.id r =? Contact.id contact
                                   then assign r else r))) ;;;
          ret (Some (assign contact))
      | _, _, _, _ => raise IntegrityError
      end
  | None => ret None
  end.

Definition delete_contact (contact_id : Z) (user : User.t) : M (option Contact.t) :=
  contact <- select_contact contact_id user ;;
  match contact with
  | Some contact =>
      modify (with_contacts
                (filter (fun r => negb (Contact.id r =? Contact.id contact)))) ;;;
      ret (Some contact)
  | None => ret None
  end.

(** [today] is [datetime.now().date()]. *)
Definition get_upcoming_birthdays (today : date.t) (user : User.t) : M (list Contact.t) :=
  s <- get_state ;;
  ret (filter (fun c => date.leb today (Contact.birthday c)
                        && date.leb_plus_days (Contact.birthday c) today 7)
              (filter (owned_by user) (contacts s))).
End Repo.
End repositories_contacts.

(** ** src/routes/contacts.py

    [user] is the result of the [auth_service.get_current_user] dependency. *)
Module routes_contacts.
Section Routes.
Context {env : Env}.

Definition NOT_FOUND : Exn := HTTPException HTTP_404_NOT_FOUND "NOT FOUND".

Definition get_upcoming_birthdays (today : date.t) (user : User.t) : M (list Contact.t) :=
  repositories_contacts.get_upcoming_birthdays today user.

Definition get_contacts (limit offset : nat) (user : User.t) : M (list Contact.t) :=
  repositories_contacts.get_contacts limit offset user.

Definition get_contact (contact_id : Z) (user : User.t) : M Contact.t :=
  contact <- repositories_contacts.get_contact contact_id user ;;
  match contact with
  | None => raise NOT_FOUND
  | Some contact => ret contact
  end.

Definition search_contacts (query : string) (user : User.t) : M (list Contact.t) :=
  repositories_contacts.search_contacts query user.

Definition create_contact (body : ContactSchema.t) (user : User.t) : M Contact.t :=
  repositories_contacts.create_contact body user.

Definition update_contact (body : ContactUpdateSchema.t) (contact_id : Z) (user : User.t)
  : M Contact.t :=
  contact <- repositories_contacts.update_contact contact_id body user ;;
  match contact with
  | None => raise NOT_FOUND
  | Some contact => ret contact
  end.

(** Declared with [status_code=HTTP_204_NO_CONTENT]; the value passed on is
    whatever the repository returned. *)
Definition delete_contact (contact_id : Z) (user : User.t) : M (option Contact.t) :=
  contact <- repositories_contacts.delete_contact contact_id user ;;
  ret contact.
End Routes.
End routes_contacts.

(** ** A reference instance of the collaborators

    Used to run the routes on concrete requests. *)
Module reference.

(** [split_dot "a.b.c" = Some ("a", "b.c")] *)
Fixpoint split_dot (s : string) : option (string * string) :=
  match s with
  | EmptyString => None
  | String c rest =>
      if Ascii.eqb c "."%char then Some (EmptyString, rest)
      else match split_dot rest with
           | Some (a, b) => Some (String c a, b)
           | None => None
           end
  end.

(** Modelled from the spec: the Token Service of [src/services/auth.py],
    which is not among the sources.  A token is the signed serialisation
    of its claims -- scope, issued-at and subject; the expiry is the
    issued-at plus the lifetime of the scope, and a token is expired once
    the clock has reached its expiry.  Signing is deterministic: equal
    claims give equal tokens. *)
Definition lifetime (scope : string) : Z :=
  if (scope =? "access_token")%string then 15 * 60
  else if (scope =? "refresh_token")%string then 7 * 24 * 60 * 60
  else 24 * 60 * 60.

Definition encode (scope : string) (iat : Z) (sub : string) : string :=
  scope ++ "." ++ NilZero.string_of_int (Z.to_int iat) ++ "." ++ sub.

(** Subject of a token of the wanted scope that has not expired. *)
Definition decode (scope : string) (now : Z) (token : string) : option string :=
  match split_dot token with
  | Some (scope', rest) =>
      match split_dot rest with
      | Some (digits, sub) =>
          match NilZero.int_of_string digits with
          | Some iat =>
              if (scope' =? scope)%string && (now <? Z.of_int iat + lifetime scope)
              then Some sub else None
          | None => None
          end
      | None => None
      end
  | None => None
  end.

Definition create_access_token (now : Z) (sub : string) : string :=
  encode "access_token" now sub.

Definition create_refresh_token (now : Z) (sub : string) : string :=
  encode "refresh_token" now sub.

Definition create_email_token (now : Z) (sub : string) : string :=
  encode "email_token" now sub.

Definition decode_refresh_token (now : Z) (token : string) : Outcome string :=
  match decode "refresh_token" now token with
  | Some email => Return email
  | None => Raise (HTTPException HTTP_401_UNAUTHORIZED "Could not validate credentials")
  end.

Definition get_email_from_token (now : Z) (token : string) : Outcome string :=
  match decode "email_token" now token with
  | Some email => Return email
  | None => Raise (HTTPException HTTP_400_BAD_REQUEST "Verification error")
  end.

(** Modelled from the spec: the Credential Hasher of [src/services/auth.py],
    as far as its contract goes: [verify] accepts exactly the digests
    that [hash] produced for the plaintext.  Salting is not represented. *)
Definition get_password_hash (plaintext : string) : string := "$hash$" ++ plaintext.

Definition verify_password (plaintext digest : string) : bool :=
  (digest =? get_password_hash plaintext)%string.

Definition auth_service : Auth :=
  Build_Auth get_password_hash verify_password
             create_access_token create_refresh_token
             decode_refresh_token get_email_from_token.

Definition lower (c : Ascii.ascii) : Ascii.ascii :=
  let n := Ascii.nat_of_ascii c in
  if (Nat.leb 65 n && Nat.leb n 90)%bool then Ascii.ascii_of_nat (n + 32) else c.

(** SQL [value ILIKE pattern]: [%] matches any run of characters, [_] any
    single one, letters match regardless of case. *)
Fixpoint like (pattern value : string) {struct pattern} : bool :=
  match pattern with
  | EmptyString => match value with EmptyString => true | _ => false end
  | String p pattern' =>
      if Ascii.eqb p "%"%char then
        (fix any (v : string) : bool :=
           like pattern' v ||
           match v with EmptyString => false | String _ v' => any v' end) value
      else
        match value with
        | EmptyString => false
        | String c value' =>
            (Ascii.eqb p "_"%char || Ascii.eqb (lower p) (lower c)) && like pattern' value'
        end
  end.

Definition env : Env := {|
  Gravatar_get_image := fun _ => None;
  ilike := fun value pattern => like pattern value;
  ACCOUNT_EXIST := "Account already exists";
  row_order := fun _ _ rows => rows;
  row_order_permutes := fun _ _ rows => Permutation_refl rows
|}.

End reference.

(** ** Sample data for concrete runs *)
Module sample.

Definition alice_token : string := reference.create_refresh_token 100 "a@x.com".

(** A refresh token issued to alice before [alice_token]. *)
Definition stale_token : string := reference.create_refresh_token 0 "a@x.com".

Definition alice : User.t :=
  User.mk 1 "alice" "a@x.com" (reference.get_password_hash "pw123")
          None (Some alice_token) true.

(** Signed up, not yet confirmed. *)
Definition bob : User.t :=
  User.mk 2 "bob" "b@x.com" (reference.get_password_hash "hunter2")
          None None false.

Definition bob_email_token : string := reference.create_email_token 50 "b@x.com".

Definition today : date.t := date.mk 2024 3 1.

Definition carol_2024 : Contact.t :=
  Contact.mk 1 "Carol" "Jones" "carol@example.com" "12345"
             (date.mk 2024 3 5) None (Some 1).

Definition dave_1990 : Contact.t :=
  Contact.mk 2 "Dave" "Smith" "dave@example.com" "23456"
             (date.mk 1990 3 5) None (Some 1).

Definition erin_of_bob : Contact.t :=
  Contact.mk 3 "Erin" "Brown" "erin@example.com" "34567"
             (date.mk 2024 3 3) (Some "met in Kyiv") (Some 2).

Definition db : State :=
  mkState [alice; bob] [carol_2024; dave_1990; erin_of_bob] [].

Definition new_user : UserSchema.t := UserSchema.mk "frank" "f@x.com" "s3cret".

End sample.

(** ** src/routes/users.py *)

(** The image host behind [cloudinary.uploader.upload] and
    [CloudinaryImage(...).build_url].  [upload file public_id] is the
    ["version"] entry of the response ([None] when the response has none),
    or the error the upload raised. *)
Class Cloudinary : Type := {
  uploader_upload : string -> string -> Outcome (option Z);
  build_url : string -> Z -> Z -> string -> option Z -> string
                                                  (* id, width, height, crop, version *)
}.

Module routes_users.
Section Routes.
Context {cloudinary : Cloudinary}.

(** [user] is the result of the [auth_service.get_current_user] dependency,
    [file] the uploaded image. *)
Definition update_avatar_user (file : string) (user : User.t) : M User.t :=
  let public_id := "ContactsApp/" ++ User.username user in
  r <- lift (uploader_upload file public_id) ;;
  let src_url := build_url public_id 250 250 "fill" r in
  user <- repositories_users.update_avatar (User.email user) src_url ;;
  ret user.
End Routes.
End routes_users.

(** ** More sample data *)
Module fixtures.

(** An image host that numbers every upload 7 and rejects an empty file. *)
Definition cloudinary : Cloudinary := {|
  uploader_upload := fun file _ =>
    match file with
    | EmptyString => Raise (HTTPException 400 "Empty file")
    | _ => Return (Some 7)
    end;
  build_url := fun public_id _ _ _ version =>
    "https://res.cloudinary.com/demo/image/upload/"
      ++ match version with Some _ => "v7/" | None => "" end ++ public_id
|}.

Definition carol_update : ContactUpdateSchema.t :=
  ContactUpdateSchema.mk (Some "Caroline") (Some "Jones") (Some "carol@example.com")
                         (Some "12345") (date.mk 1991 3 5) (Some "renamed").

(** A body that leaves [firstname] unset. *)
Definition partial_update : ContactUpdateSchema.t :=
  ContactUpdateSchema.mk None (Some "Jones") (Some "carol@example.com")
                         (Some "12345") (date.mk 1991 3 5) None.

Definition gina : ContactSchema.t :=
  ContactSchema.mk "Gina" "White" "gina@example.com" "45678" (date.mk 1985 7 9) None.


(** The last Monday of February in a leap year, and three contacts of
    alice: one whose birthday is seven days later, one eight days later,
    and one born on the same day of the month in 1990. *)
Definition late_february : date.t := date.mk 2024 2 26.

Definition born_march_4 : Contact.t :=
  Contact.mk 11 "Hana" "Gray" "hana@example.com" "56789" (date.mk 2024 3 4) None (Some 1).

Definition born_march_5 : Contact.t :=
  Contact.mk 12 "Ivan" "Gray" "ivan@example.com" "67890" (date.mk 2024 3 5) None (Some 1).

Definition born_1990 : Contact.t :=
  Contact.mk 13 "Jane" "Gray" "jane@example.com" "78901" (date.mk 1990 2 28) None (Some 1).

Definition db_february : State :=
  mkState [sample.alice; sample.bob] [born_march_4; born_march_5; born_1990] [].

(** [sample.db] after bob confirmed his e-mail. *)
Definition db_confirmed : State :=
  mkState [sample.alice; User.set_confirmed true sample.bob] (contacts sample.db) [].

End fixtures.

(** ** Vocabulary of the statements *)

(** The contact belongs to the user. *)
Definition owned (user : User.t) (c : Contact.t) : Prop :=
  Contact.user_id c = Some (User.id user).

(** The rows of the contacts table that do not belong to the user. *)
Definition foreign_rows (user : User.t) (s : State) : list Contact.t :=
  filter (fun c => negb (repositories_contacts.owned_by user c)) (contacts s).

(** The Gregorian calendar, stated without ordinals: the length of each
    month, the day after a date, and the order of dates by year, month and
    day. *)
Module calendar.

Definition leap_year (y : Z) : bool :=
  if y mod 400 =? 0 then true
  else if y mod 100 =? 0 then false
  else y mod 4 =? 0.

Definition month_length (y m : Z) : Z :=
  if m =? 2 then (if leap_year y then 29 else 28)
  else if (m =? 4) || (m =? 6) || (m =? 9) || (m =? 11) then 30
  else 31.

(** A month and a day of that month. *)
Definition is_day (d : date.t) : Prop :=
  1 <= date.month d <= 12 /\
  1 <= date.day d <= month_length (date.year d) (date.month d).

(** A date that a [datetime.date] object can hold. *)
Definition is_date (d : date.t) : Prop :=
  1 <= date.year d <= 9999 /\ is_day d.

Definition tomorrow (d : date.t) : date.t :=
  if date.day d <? month_length (date.year d) (date.month d)
  then date.mk (date.year d) (date.month d) (date.day d + 1)
  else if date.month d <? 12
       then date.mk (date.year d) (date.month d + 1) 1
       else date.mk (date.year d + 1) 1 1.

(** The date [n] days after [d]. *)
Fixpoint days_later (n : nat) (d : date.t) : date.t :=
  match n with
  | O => d
  | S n' => tomorrow (days_later n' d)
  end.

(** [a] is [b] or an earlier date. *)
Definition on_or_before (a b : date.t) : Prop :=
  date.year a < date.year b \/
  (date.year a = date.year b /\
   (date.month a < date.month b \/
    (date.month a = date.month b /\ date.day a <= date.day b))).

End calendar.

(** * Properties *)

(** ** Basic facts about the Python values and the tables *)

Lemma opt_str_eqb_eq (a b : option string) : opt_str_eqb a b = true <-> a = b.
Proof.
  destruct a as [x|], b as [y|]; simpl; try (split; congruence).
  rewrite String.eqb_eq. split; congruence.
Qed.

Lemma opt_Z_eqb_eq (a b : option Z) : opt_Z_eqb a b = true <-> a = b.
Proof.
  destruct a as [x|], b as [y|]; simpl; try (split; congruence).
  rewrite Z.eqb_eq. split; congruence.
Qed.

Lemma filter_map_same {A} (p : A -> bool) (f : A -> A) (l : list A) :
  (forall x, p (f x) = p x) -> filter p (map f l) = map f (filter p l).
Proof.
  intros Hp. induction l as [|x l IH]; simpl; [reflexivity|].
  rewrite Hp. destruct (p x); simpl; now rewrite IH.
Qed.

(** A column under a uniqueness constraint selects at most one row. *)
Lemma unique_column_filter {A} (col : A -> string) (v : string) (l : list A) :
  NoDup (map col l) ->
  filter (fun x => col x =? v)%string l = [] \/
  exists x, filter (fun x => col x =? v)%string l = [x].
Proof.
  induction l as [|a l IH]; simpl; intros Hnd; [now left|].
  inversion Hnd as [|? ? Hnotin Hnd']; subst.
  destruct (String.eqb_spec (col a) v) as [Heq|Hne].
  - right. exists a. f_equal.
    assert (Hnone : forall l', ~ In v (map col l') ->
                               filter (fun x => col x =? v)%string l' = []).
    { induction l' as [|b l' IH']; simpl; intros Hn; [reflexivity|].
      destruct (String.eqb_spec (col b) v); [exfalso; apply Hn; now left|].
      apply IH'. intros Hin. apply Hn. now right. }
    apply Hnone. now rewrite <- Heq.
  - now apply IH.
Qed.

Lemma primary_key_injective {A} (key : A -> Z) (l : list A) (a b : A) :
  NoDup (map key l) -> In a l -> In b l -> key a = key b -> a = b.
Proof.
  induction l as [|x l IH]; simpl; intros Hnd Ha Hb Hk; [contradiction|].
  inversion Hnd as [|? ? Hnotin Hnd']; subst.
  destruct Ha as [<-|Ha], Hb as [<-|Hb]; trivial.
  - exfalso. apply Hnotin. rewrite Hk. now apply in_map.
  - exfalso. apply Hnotin. rewrite <- Hk. now apply in_map.
  - now apply IH.
Qed.

Ltac run_monad :=
  unfold bind, ret, raise, modify, get_state, lift, getattr, scalar_one_or_none in *;
  simpl in *.

(** ** The user directory *)
Section UserDirectory.
Context {env : Env}.
Import repositories_users.

Lemma get_user_by_email_run (email : string) (s : State) :
  get_user_by_email email s =
  (match rows_with_email email s with
   | [] => Return None
   | [x] => Return (Some x)
   | _ :: _ :: _ => Raise MultipleResultsFound
   end, s).
Proof.
  unfold get_user_by_email. run_monad.
  now destruct (rows_with_email email s) as [|x [|y l]].
Qed.

Lemma get_user_by_email_Some (email : string) (s : State) (user : User.t) :
  fst (get_user_by_email email s) = Return (Some user) <->
  rows_with_email email s = [user].
Proof.
  rewrite get_user_by_email_run. simpl.
  destruct (rows_with_email email s) as [|x [|y l]]; split; congruence.
Qed.

Lemma get_user_by_email_None (email : string) (s : State) :
  fst (get_user_by_email email s) = Return None <->
  rows_with_email email s = [].
Proof.
  rewrite get_user_by_email_run. simpl.
  destruct (rows_with_email email s) as [|x [|y l]]; split; congruence.
Qed.

(** Looking a user up never changes the state. *)
Lemma get_user_by_email_pure (email : string) (s : State) :
  snd (get_user_by_email email s) = s.
Proof. now rewrite get_user_by_email_run. Qed.

(** An update of the row of [user] that keeps the e-mail column is seen by
    the next lookup. *)
Lemma rows_with_email_update_row (email : string) (s : State) (user : User.t)
      (f : User.t -> User.t) :
  (forall r, User.email (f r) = User.email r) ->
  rows_with_email email s = [user] ->
  rows_with_email email (snd (update_row user f s)) = [f user].
Proof.
  intros Hf Hrows. unfold update_row, rows_with_email in *. run_monad.
  rewrite filter_map_same.
  - rewrite Hrows. simpl. now rewrite Z.eqb_refl.
  - intros r. destruct (User.id r =? User.id user); [now rewrite Hf | reflexivity].
Qed.

Lemma update_row_run (user : User.t) (f : User.t -> User.t) (s : State) :
  fst (update_row user f s) = Return tt.
Proof. reflexivity. Qed.

Lemma update_row_unique_emails (user : User.t) (f : User.t -> User.t) (s : State) :
  (forall r, User.email (f r) = User.email r) ->
  map User.email (users (snd (update_row user f s))) = map User.email (users s).
Proof.
  intros Hf. unfold update_row. run_monad. rewrite map_map.
  apply map_ext. intros r.
  destruct (User.id r =? User.id user); [apply Hf | reflexivity].
Qed.
End UserDirectory.

(** ** The authentication flow *)
Section AuthFlow.
Context {auth_service : Auth} {env : Env}.
Import repositories_users routes_auth.

Lemma set_refresh_token_email (tok : option string) (r : User.t) :
  User.email (User.set_refresh_token tok r) = User.email r.
Proof. reflexivity. Qed.

Lemma set_confirmed_email (b : bool) (r : User.t) :
  User.email (User.set_confirmed b r) = User.email r.
Proof. reflexivity. Qed.

(** The three ways [refresh_token] can go once the token has decoded. *)
Lemma refresh_token_run (now : Z) (token email : string) (s : State) :
  decode_refresh_token now token = Return email ->
  refresh_token now token s =
  match rows_with_email email s with
  | [] => (Raise (NoneType_has_no_attribute "refresh_token"), s)
  | [user] =>
      if opt_str_eqb (User.refresh_token user) (Some token) then
        (Return (TokenSchema.mk (create_access_token now email)
                                (create_refresh_token now email) "bearer"),
         snd (update_token user (Some (create_refresh_token now email)) s))
      else
        (Raise (HTTPException HTTP_401_UNAUTHORIZED "Invalid refresh token"),
         snd (update_token user None s))
  | _ :: _ :: _ => (Raise MultipleResultsFound, s)
  end.
Proof.
  intros Hdec. unfold refresh_token, bind at 1, lift. rewrite Hdec.
  unfold bind at 1. rewrite get_user_by_email_run.
  destruct (rows_with_email email s) as [|user [|y l]]; try reflexivity.
  destruct (opt_str_eqb (User.refresh_token user) (Some token)); reflexivity.
Qed.

Lemma refresh_token_decode_fails (now : Z) (token : string) (e : Exn) (s : State) :
  decode_refresh_token now token = Raise e ->
  refresh_token now token s = (Raise e, s).
Proof.
  intros Hdec. unfold refresh_token, bind at 1, lift. now rewrite Hdec.
Qed.

(** What a successful refresh looked like. *)
Lemma refresh_token_Return_inv (now : Z) (token : string) (pair : TokenSchema.t)
      (s s' : State) :
  refresh_token now token s = (Return pair, s') ->
  exists email user,
    decode_refresh_token now token = Return email /\
    rows_with_email email s = [user] /\
    User.refresh_token user = Some token /\
    pair = TokenSchema.mk (create_access_token now email)
                          (create_refresh_token now email) "bearer" /\
    s' = snd (update_token user (Some (create_refresh_token now email)) s).
Proof.
  intros Hrun.
  destruct (decode_refresh_token now token) as [email|e] eqn:Hdec.
  - rewrite (refresh_token_run _ _ _ _ Hdec) in Hrun.
    destruct (rows_with_email email s) as [|user [|y l]] eqn:Hrows; try discriminate.
    destruct (opt_str_eqb (User.refresh_token user) (Some token)) eqn:Heq;
      try discriminate.
    apply opt_str_eqb_eq in Heq. inversion Hrun; subst.
    exists email, user. auto.
  - rewrite (refresh_token_decode_fails _ _ _ _ Hdec) in Hrun. discriminate.
Qed.

(** The mismatch branch of [refresh_token]. *)
Lemma refresh_token_mismatch_run
      (now : Z) (token email : string) (user : User.t) (s : State) :
  decode_refresh_token now token = Return email ->
  rows_with_email email s = [user] ->
  User.refresh_token user <> Some token ->
  refresh_token now token s
  = (Raise (HTTPException HTTP_401_UNAUTHORIZED "Invalid refresh token"),
     snd (update_token user None s)).
Proof.
  intros Hdec Hrows Hneq. rewrite (refresh_token_run _ _ _ _ Hdec), Hrows.
  destruct (opt_str_eqb (User.refresh_token user) (Some token)) eqn:Heq;
    [|reflexivity].
  apply opt_str_eqb_eq in Heq. contradiction.
Qed.

(** C2.  When the presented refresh token decodes to a user whose stored
    refresh token is not the presented one, [refresh_token] sets the
    stored token of that user to [None] and then fails with 401
    Unauthorized; it returns no token pair. *)
Theorem refresh_token_mismatch_clears_and_fails
        (now : Z) (token email : string) (user : User.t) (s : State) :
  decode_refresh_token now token = Return email ->
  fst (get_user_by_email email s) = Return (Some user) ->
  User.refresh_token user <> Some token ->
  exists s',
    refresh_token now token s =
      (Raise (HTTPException HTTP_401_UNAUTHORIZED "Invalid refresh token"), s') /\
    s' = snd (update_token user None s) /\
    fst (get_user_by_email email s') = Return (Some (User.set_refresh_token None user)) /\
    User.refresh_token (User.set_refresh_token None user) = None.
Proof.
  intros Hdec Huser Hneq. apply get_user_by_email_Some in Huser.
  exists (snd (update_token user None s)).
  rewrite (refresh_token_run _ _ _ _ Hdec), Huser.
  destruct (opt_str_eqb (User.refresh_token user) (Some token)) eqn:Heq.
  - apply opt_str_eqb_eq in Heq. contradiction.
  - repeat split. apply get_user_by_email_Some.
    now apply rows_with_email_update_row.
Qed.

(** Rotation, for every token service: after a successful [refresh_token]
    the stored refresh token of the user is the newly minted one, and a
    later call that presents a token of the same subject other than the
    stored one fails with 401. *)
Lemma refresh_token_rotates_slot
        (now : Z) (token : string) (pair : TokenSchema.t) (s s' : State) :
  refresh_token now token s = (Return pair, s') ->
  exists email user',
    decode_refresh_token now token = Return email /\
    TokenSchema.refresh_token pair = create_refresh_token now email /\
    fst (get_user_by_email email s') = Return (Some user') /\
    User.refresh_token user' = Some (TokenSchema.refresh_token pair) /\
    (forall now' token',
        decode_refresh_token now' token' = Return email ->
        token' <> TokenSchema.refresh_token pair ->
        exists s'',
          refresh_token now' token' s' =
            (Raise (HTTPException HTTP_401_UNAUTHORIZED "Invalid refresh token"), s'')) /\
    (forall now' token' pair' s'',
        decode_refresh_token now' token' = Return email ->
        refresh_token now' token' s' = (Return pair', s'') ->
        token' = TokenSchema.refresh_token pair).
Proof.
  intros Hrun.
  destruct (refresh_token_Return_inv _ _ _ _ _ Hrun)
    as (email & user & Hdec & Hrows & Hstored & -> & ->).
  set (minted := create_refresh_token now email).
  assert (Hrows' : rows_with_email email (snd (update_token user (Some minted) s))
                   = [User.set_refresh_token (Some minted) user])
    by (now apply rows_with_email_update_row).
  assert (Hreject : forall now' token',
             decode_refresh_token now' token' = Return email ->
             token' <> minted ->
             exists s'',
               refresh_token now' token' (snd (update_token user (Some minted) s)) =
               (Raise (HTTPException HTTP_401_UNAUTHORIZED "Invalid refresh token"), s'')).
  { intros now' token' Hdec' Hneq.
    rewrite (refresh_token_run _ _ _ _ Hdec'), Hrows'. simpl.
    destruct (String.eqb_spec minted token') as [Heq|_]; [now subst|].
    eexists. reflexivity. }
  exists email, (User.set_refresh_token (Some minted) user).
  split; [exact Hdec|]. split; [reflexivity|].
  split; [now apply get_user_by_email_Some|]. split; [reflexivity|].
  split; [exact Hreject|].
  intros now' token' pair' s'' Hdec' Hrun'.
  destruct (string_dec token' minted) as [Heq|Hneq]; [exact Heq|].
  destruct (Hreject _ _ Hdec' Hneq) as (s3 & Hfail).
  rewrite Hfail in Hrun'. discriminate.
Qed.

(** [login], branch by branch. *)
Lemma login_run (now : Z) (username password : string) (s : State) :
  login now username password s =
  match rows_with_email username s with
  | [] => (Raise (HTTPException HTTP_401_UNAUTHORIZED "Invalid email"), s)
  | [user] =>
      if negb (User.confirmed user) then
        (Raise (HTTPException HTTP_401_UNAUTHORIZED "Email is not confirmed"), s)
      else if negb (verify_password password (User.password user)) then
        (Raise (HTTPException HTTP_401_UNAUTHORIZED "Invalid password"), s)
      else
        (Return (TokenSchema.mk (create_access_token now (User.email user))
                                (create_refresh_token now (User.email user)) "bearer"),
         snd (update_token user (Some (create_refresh_token now (User.email user))) s))
  | _ :: _ :: _ => (Raise MultipleResultsFound, s)
  end.
Proof.
  unfold login, bind at 1. rewrite get_user_by_email_run.
  destruct (rows_with_email username s) as [|user [|y l]]; try reflexivity.
  destruct (User.confirmed user); simpl; [|reflexivity].
  destruct (verify_password password (User.password user)); reflexivity.
Qed.

(** C3 (amended).  [login] fails with status 401 in exactly three cases:
    no user has the e-mail, the user is not confirmed, or the password
    does not verify against the stored hash.  The three causes share the
    status code, and each has a detail message of its own: "Invalid
    email", "Email is not confirmed", "Invalid password". *)
Theorem login_unauthorized_cases (now : Z) (username password : string) (s : State) :
  ((exists detail,
       fst (login now username password s)
       = Raise (HTTPException HTTP_401_UNAUTHORIZED detail)) <->
   (fst (get_user_by_email username s) = Return None \/
    exists user,
      fst (get_user_by_email username s) = Return (Some user) /\
      (User.confirmed user = false \/
       verify_password password (User.password user) = false))) /\
  (fst (get_user_by_email username s) = Return None ->
   fst (login now username password s)
   = Raise (HTTPException HTTP_401_UNAUTHORIZED "Invalid email")) /\
  (forall user,
      fst (get_user_by_email username s) = Return (Some user) ->
      User.confirmed user = false ->
      fst (login now username password s)
      = Raise (HTTPException HTTP_401_UNAUTHORIZED "Email is not confirmed")) /\
  (forall user,
      fst (get_user_by_email username s) = Return (Some user) ->
      User.confirmed user = true ->
      verify_password password (User.password user) = false ->
      fst (login now username password s)
      = Raise (HTTPException HTTP_401_UNAUTHORIZED "Invalid password")).
Proof.
  rewrite login_run, get_user_by_email_run.
  destruct (rows_with_email username s) as [|user [|y l]]; simpl.
  - repeat split; try discriminate; eauto.
  - destruct (User.confirmed user) eqn:Hc; simpl;
      [destruct (verify_password password (User.password user)) eqn:Hv; simpl|].
    + repeat split; try discriminate; try congruence.
      * intros (d & Hd). discriminate.
      * intros [H|(u & Hu & [H|H])]; [discriminate| |]; congruence.
    + repeat split; try discriminate; try congruence; eauto 6.
    + repeat split; try discriminate; try congruence; eauto 6.
  - repeat split; try discriminate.
    + intros (d & Hd). discriminate.
    + intros [H|(u & Hu & _)]; discriminate.
Qed.

(** C4.  A [login] that fails, whatever the cause, leaves the state as it
    was: no stored refresh token of any user is rotated, set or cleared. *)
Theorem failed_login_changes_nothing
        (now : Z) (username password : string) (e : Exn) (s s' : State) :
  login now username password s = (Raise e, s') ->
  s' = s /\
  forall email, get_user_by_email email s' = get_user_by_email email s.
Proof.
  rewrite login_run. intros Hrun.
  assert (Hs : s' = s).
  { destruct (rows_with_email username s) as [|user [|y l]];
      [congruence| |congruence].
    destruct (negb (User.confirmed user)); [congruence|].
    destruct (negb (verify_password password (User.password user)));
      [congruence|discriminate]. }
  split; [exact Hs|]. intros email. now rewrite Hs.
Qed.

Lemma confirmed_email_run (now : Z) (token email : string) (s : State) :
  get_email_from_token now token = Return email ->
  routes_auth.confirmed_email now token s =
  match rows_with_email email s with
  | [] => (Raise (HTTPException HTTP_400_BAD_REQUEST "Verification error"), s)
  | [user] =>
      if User.confirmed user then (Return (mkMessage "Your email is already confirmed"), s)
      else (Return (mkMessage "Email confirmed"),
            snd (update_row user (User.set_confirmed true) s))
  | _ :: _ :: _ => (Raise MultipleResultsFound, s)
  end.
Proof.
  intros Hdec. unfold routes_auth.confirmed_email, bind at 1, lift. rewrite Hdec.
  unfold bind at 1. rewrite get_user_by_email_run.
  destruct (rows_with_email email s) as [|user [|y l]] eqn:Hrows; try reflexivity.
  destruct (User.confirmed user); [reflexivity|].
  unfold bind at 1, repositories_users.confirmed_email, bind at 1.
  rewrite get_user_by_email_run, Hrows. reflexivity.
Qed.

(** C5.  For a confirmation token whose subject names an existing user,
    [confirmed_email] returns a message without error and leaves the
    user's [confirmed] flag true -- "Email confirmed" when the flag was
    false before; every later call with a valid token of the same subject
    returns "Your email is already confirmed" and changes nothing. *)
Theorem confirmed_email_idempotent
        (now : Z) (token email : string) (user : User.t) (s : State) :
  get_email_from_token now token = Return email ->
  fst (get_user_by_email email s) = Return (Some user) ->
  exists msg s',
    routes_auth.confirmed_email now token s = (Return msg, s') /\
    (User.confirmed user = false -> msg = mkMessage "Email confirmed") /\
    fst (get_user_by_email email s') = Return (Some (User.set_confirmed true user)) /\
    User.confirmed (User.set_confirmed true user) = true /\
    forall now' token',
      get_email_from_token now' token' = Return email ->
      routes_auth.confirmed_email now' token' s'
      = (Return (mkMessage "Your email is already confirmed"), s').
Proof.
  intros Hdec Huser. apply get_user_by_email_Some in Huser.
  rewrite (confirmed_email_run _ _ _ _ Hdec), Huser.
  destruct (User.confirmed user) eqn:Hc.
  - exists (mkMessage "Your email is already confirmed"), s.
    assert (Hsame : User.set_confirmed true user = user)
      by (destruct user; simpl in *; now subst).
    rewrite Hsame. repeat split; trivial; try discriminate.
    + now apply get_user_by_email_Some.
    + intros now' token' Hdec'.
      now rewrite (confirmed_email_run _ _ _ _ Hdec'), Huser, Hc.
  - exists (mkMessage "Email confirmed"),
           (snd (update_row user (User.set_confirmed true) s)).
    assert (Hrows' : rows_with_email email
                       (snd (update_row user (User.set_confirmed true) s))
                     = [User.set_confirmed true user])
      by (now apply rows_with_email_update_row).
    repeat split; trivial.
    + now apply get_user_by_email_Some.
    + intros now' token' Hdec'.
      now rewrite (confirmed_email_run _ _ _ _ Hdec'), Hrows'.
Qed.

(** C6.  What [request_email] does on an e-mail that no user has: the
    attribute access [user.confirmed] comes before the test [if user:],
    so the call raises [AttributeError] -- a server error, not a 200
    status message -- and queues nothing. *)
Theorem request_email_absent_user (email base_url : string) (s : State) :
  fst (get_user_by_email email s) = Return None ->
  request_email email base_url s = (Raise (NoneType_has_no_attribute "confirmed"), s).
Proof.
  intros Hnone. apply get_user_by_email_None in Hnone.
  unfold request_email, bind at 1. now rewrite get_user_by_email_run, Hnone.
Qed.

Lemma request_email_existing_user (email base_url : string) (user : User.t) (s : State) :
  fst (get_user_by_email email s) = Return (Some user) ->
  request_email email base_url s =
  if User.confirmed user then (Return (mkMessage "Your email is already confirmed"), s)
  else (Return (mkMessage "Check your email for confirmation."),
        add_task (send_email (User.email user) (User.username user) base_url) s).
Proof.
  intros Huser. apply get_user_by_email_Some in Huser.
  unfold request_email, bind at 1. rewrite get_user_by_email_run, Huser.
  run_monad. now destruct (User.confirmed user).
Qed.

Lemma rows_with_email_nil_iff (email : string) (s : State) :
  rows_with_email email s = [] <->
  forall u, In u (users s) -> User.email u <> email.
Proof.
  unfold rows_with_email. split.
  - intros Hnil u Hin Heq.
    assert (Hf : In u (filter (fun u => User.email u =? email)%string (users s)))
      by (apply filter_In; split; [exact Hin | now apply String.eqb_eq]).
    rewrite Hnil in Hf. contradiction.
  - intros Hall.
    destruct (filter (fun u => User.email u =? email)%string (users s))
      as [|u l] eqn:Hf; [reflexivity|].
    assert (Hin : In u (filter (fun u => User.email u =? email)%string (users s)))
      by (rewrite Hf; now left).
    apply filter_In in Hin. destruct Hin as [Hin Heq].
    apply String.eqb_eq in Heq. now destruct (Hall u Hin).
Qed.

Lemma rows_with_email_nil_existsb (email : string) (s : State) :
  rows_with_email email s = [] ->
  existsb (fun u => User.email u =? email)%string (users s) = false.
Proof.
  intros Hnil. destruct (existsb _ (users s)) eqn:Hex; [|reflexivity].
  apply existsb_exists in Hex. destruct Hex as (u & Hin & Heq).
  apply String.eqb_eq in Heq.
  now destruct (proj1 (rows_with_email_nil_iff email s) Hnil u Hin).
Qed.

(** The row that [signup] inserts for [body] into the table of [s]. *)
Lemma signup_run (body : UserSchema.t) (base_url : string) (s : State) :
  signup body base_url s =
  match rows_with_email (UserSchema.email body) s with
  | [] =>
      let new_user :=
        User.mk (next_id (map User.id (users s)))
                (UserSchema.username body) (UserSchema.email body)
                (get_password_hash (UserSchema.password body))
                (Gravatar_get_image (UserSchema.email body)) None false in
      (Return new_user,
       mkState (users s ++ [new_user]) (contacts s)
               (bt s ++ [send_email (UserSchema.email body) (UserSchema.username body)
                                    base_url]))
  | [_] => (Raise (HTTPException HTTP_409_CONFLICT ACCOUNT_EXIST), s)
  | _ :: _ :: _ => (Raise MultipleResultsFound, s)
  end.
Proof.
  unfold signup, bind at 1. rewrite get_user_by_email_run.
  destruct (rows_with_email (UserSchema.email body) s) as [|u [|y l]] eqn:Hrows;
    try reflexivity.
  unfold create_user. run_monad.
  now rewrite (rows_with_email_nil_existsb _ _ Hrows).
Qed.

(** C7.  On a users table that satisfies its uniqueness constraint on
    [email], [signup] fails with 409 Conflict if and only if some user
    already has the e-mail of the request; otherwise it stores a new,
    unconfirmed user under the hash of the password, queues the
    confirmation e-mail as a background task, and returns that user. *)
Theorem signup_conflict_iff (body : UserSchema.t) (base_url : string) (s : State) :
  NoDup (map User.email (users s)) ->
  ((exists u, In u (users s) /\ User.email u = UserSchema.email body) <->
   (exists detail,
       fst (signup body base_url s)
       = Raise (HTTPException HTTP_409_CONFLICT detail))) /\
  ((exists u, In u (users s) /\ User.email u = UserSchema.email body) ->
   signup body base_url s = (Raise (HTTPException HTTP_409_CONFLICT ACCOUNT_EXIST), s)) /\
  ((forall u, In u (users s) -> User.email u <> UserSchema.email body) ->
   exists new_user,
     signup body base_url s =
     (Return new_user,
      mkState (users s ++ [new_user]) (contacts s)
              (bt s ++ [send_email (User.email new_user) (User.username new_user)
                                   base_url])) /\
     User.email new_user = UserSchema.email body /\
     User.username new_user = UserSchema.username body /\
     User.password new_user = get_password_hash (UserSchema.password body) /\
     User.confirmed new_user = false /\
     User.refresh_token new_user = None).
Proof.
  intros Hnd. rewrite signup_run.
  pose proof (rows_with_email_nil_iff (UserSchema.email body) s) as Hnil.
  destruct (unique_column_filter User.email (UserSchema.email body) (users s) Hnd)
    as [Hrows|(x & Hrows)]; fold (rows_with_email (UserSchema.email body) s) in Hrows;
    rewrite Hrows; simpl.
  - pose proof (proj1 Hnil Hrows) as Hall. repeat split.
    + intros (u & Hin & Heq). now destruct (Hall u Hin).
    + intros (d & Hd). discriminate.
    + intros (u & Hin & Heq). now destruct (Hall u Hin).
    + intros _.
      exists (User.mk (next_id (map User.id (users s)))
                      (UserSchema.username body) (UserSchema.email body)
                      (get_password_hash (UserSchema.password body))
                      (Gravatar_get_image (UserSchema.email body)) None false).
      simpl. repeat split.
  - assert (Hex : exists u, In u (users s) /\ User.email u = UserSchema.email body).
    { exists x.
      assert (Hin : In x (rows_with_email (UserSchema.email body) s))
        by (rewrite Hrows; now left).
      apply filter_In in Hin. destruct Hin as [Hin Heq].
      now apply String.eqb_eq in Heq. }
    repeat split; eauto.
    intros Hall. destruct Hex as (u & Hin & Heq). now destruct (Hall u Hin).
Qed.

(** [signup] maintains the uniqueness constraint it relies on. *)
Lemma signup_keeps_emails_unique (body : UserSchema.t) (base_url : string) (s : State) :
  NoDup (map User.email (users s)) ->
  NoDup (map User.email (users (snd (signup body base_url s)))).
Proof.
  intros Hnd. rewrite signup_run.
  destruct (rows_with_email (UserSchema.email body) s) as [|u [|y l]] eqn:Hrows;
    simpl; trivial.
  rewrite map_app. simpl.
  assert (Hnotin : ~ In (UserSchema.email body) (map User.email (users s))).
  { intros Hin. apply in_map_iff in Hin. destruct Hin as (u & Heq & Hin).
    now destruct (proj1 (rows_with_email_nil_iff _ s) Hrows u Hin). }
  clear Hrows. induction (users s) as [|a l IH]; simpl in *.
  - constructor; [intros []|constructor].
  - inversion Hnd as [|? ? Ha Hl]; subst. constructor.
    + rewrite in_app_iff. intros [Hin|[Heq|[]]]; [contradiction|].
      apply Hnotin. now left.
    + apply IH; trivial. intros Hin. apply Hnotin. now right.
Qed.
End AuthFlow.

(** ** The reference token service and the single token slot *)
Section TokenService.
Import reference.

Lemma split_dot_app (a b : string) :
  split_dot a = None -> split_dot (a ++ String "."%char b) = Some (a, b).
Proof.
  induction a as [|c a IH]; intros Hnone; simpl in *; [reflexivity|].
  destruct (Ascii.eqb c "."); [discriminate|].
  destruct (split_dot a) as [[x y]|]; [discriminate|].
  now rewrite IH.
Qed.

Lemma encode_shape (scope : string) (iat : Z) (sub : string) :
  encode scope iat sub
  = scope ++ String "."%char
              (NilZero.string_of_int (Z.to_int iat) ++ String "."%char sub).
Proof. reflexivity. Qed.

Lemma split_dot_digits (d : Decimal.uint) :
  split_dot (NilEmpty.string_of_uint d) = None.
Proof. induction d; simpl; try reflexivity; now rewrite IHd. Qed.

Lemma split_dot_number (iat : Z) :
  split_dot (NilZero.string_of_int (Z.to_int iat)) = None.
Proof.
  assert (Hu : forall d, split_dot (NilZero.string_of_uint d) = None).
  { intros d. destruct d; try apply split_dot_digits. reflexivity. }
  destruct (Z.to_int iat); simpl; [apply Hu | now rewrite Hu].
Qed.

Lemma int_of_string_number (iat : Z) :
  NilZero.int_of_string (NilZero.string_of_int (Z.to_int iat)) = Some (Z.to_int iat).
Proof.
  apply NilZero.isi; destruct iat; simpl; try discriminate;
    intros H; injection H as H; now apply Unsigned.to_uint_nonnil in H.
Qed.

Lemma split_dot_encode (scope : string) (iat : Z) (sub : string) :
  split_dot scope = None ->
  split_dot (encode scope iat sub)
  = Some (scope, NilZero.string_of_int (Z.to_int iat) ++ String "."%char sub) /\
  split_dot (NilZero.string_of_int (Z.to_int iat) ++ String "."%char sub)
  = Some (NilZero.string_of_int (Z.to_int iat), sub).
Proof.
  intros Hscope. rewrite encode_shape. split.
  - now apply split_dot_app.
  - apply split_dot_app, split_dot_number.
Qed.

Lemma decode_encode (scope : string) (now iat : Z) (sub : string) :
  split_dot scope = None ->
  decode scope now (encode scope iat sub)
  = if now <? iat + lifetime scope then Some sub else None.
Proof.
  intros Hscope. destruct (split_dot_encode scope iat sub Hscope) as [H1 H2].
  unfold decode. rewrite H1, H2.
  rewrite int_of_string_number, DecimalZ.of_to, String.eqb_refl. reflexivity.
Qed.

Lemma encode_injective (scope : string) (iat iat' : Z) (sub : string) :
  split_dot scope = None ->
  encode scope iat sub = encode scope iat' sub -> iat = iat'.
Proof.
  intros Hscope Heq.
  destruct (split_dot_encode scope iat sub Hscope) as [H1 H2].
  destruct (split_dot_encode scope iat' sub Hscope) as [H1' H2'].
  rewrite Heq, H1' in H1. injection H1 as H1.
  rewrite H1, H2 in H2'. injection H2' as H2'.
  apply DecimalZ.to_int_inj.
  pose proof (int_of_string_number iat) as H3. rewrite H2', int_of_string_number in H3.
  now injection H3.
Qed.

Lemma decode_subject (scope : string) (now now' : Z) (token email email' : string) :
  decode scope now token = Some email ->
  decode scope now' token = Some email' -> email' = email.
Proof.
  unfold decode.
  destruct (split_dot token) as [[scope' rest]|]; [|discriminate].
  destruct (split_dot rest) as [[digits sub]|]; [|discriminate].
  destruct (NilZero.int_of_string digits) as [iat|]; [|discriminate].
  destruct ((scope' =? scope)%string && (now <? Z.of_int iat + lifetime scope));
    [|discriminate].
  destruct ((scope' =? scope)%string && (now' <? Z.of_int iat + lifetime scope));
    [|discriminate].
  congruence.
Qed.

Lemma decode_refresh_token_cases (now : Z) (token : string) :
  (exists email, decode "refresh_token" now token = Some email /\
                 decode_refresh_token now token = Return email) \/
  decode_refresh_token now token
  = Raise (HTTPException HTTP_401_UNAUTHORIZED "Could not validate credentials").
Proof.
  unfold decode_refresh_token.
  destruct (decode "refresh_token" now token) as [email|]; [left; eauto | now right].
Qed.

(** A token of the subject that is not the one in the slot is refused with
    401 at every clock reading, whether it still decodes or has expired. *)
Lemma other_token_unauthorized (now now' : Z) (token email : string) (user : User.t)
      (s : State) :
  decode_refresh_token now token = Return email ->
  fst (repositories_users.get_user_by_email email s) = Return (Some user) ->
  User.refresh_token user <> Some token ->
  exists detail s',
    routes_auth.refresh_token (auth_service := auth_service) now' token s
    = (Raise (HTTPException HTTP_401_UNAUTHORIZED detail), s').
Proof.
  intros Hdec Huser Hneq.
  destruct (decode_refresh_token_cases now' token) as [(email' & Hsub' & Hdec')|Hfail].
  - assert (email' = email).
    { unfold decode_refresh_token in Hdec.
      destruct (decode "refresh_token" now token) as [e|] eqn:Hsub; [|discriminate].
      injection Hdec as ->. exact (decode_subject _ _ _ _ _ _ Hsub Hsub'). }
    subst email'. apply get_user_by_email_Some in Huser.
    exists "Invalid refresh token", (snd (repositories_users.update_token user None s)).
    exact (refresh_token_mismatch_run
             (auth_service := auth_service) now' token email user s Hdec' Huser Hneq).
  - exists "Could not validate credentials", s.
    exact (refresh_token_decode_fails (auth_service := auth_service) _ _ _ _ Hfail).
Qed.

(** C1 (amended).  With the token service of the specification: after a
    successful [refresh_token] at clock reading [now] the stored refresh
    token of the user is the newly minted one.  Every refresh token issued
    to that user at another clock reading, and the token just consumed
    unless it is the minted token itself, is from then on refused with 401
    Unauthorized at every clock reading; a token of the subject that is
    accepted afterwards is the most recently issued one.  The one exception
    is a consumed token that was issued at the very reading [now]: it is
    the minted token itself, stays in the slot, and is accepted again
    whenever it still decodes. *)
Theorem refresh_token_single_slot
        (now : Z) (token : string) (pair : TokenSchema.t) (s s' : State) :
  routes_auth.refresh_token (auth_service := auth_service) now token s
  = (Return pair, s') ->
  exists email user',
    decode_refresh_token now token = Return email /\
    TokenSchema.refresh_token pair = create_refresh_token now email /\
    fst (repositories_users.get_user_by_email email s') = Return (Some user') /\
    User.refresh_token user' = Some (TokenSchema.refresh_token pair) /\
    (forall issued now',
        issued <> now ->
        exists detail s'',
          routes_auth.refresh_token (auth_service := auth_service)
                                    now' (create_refresh_token issued email) s'
          = (Raise (HTTPException HTTP_401_UNAUTHORIZED detail), s'')) /\
    (token <> create_refresh_token now email ->
     forall now',
     exists detail s'',
       routes_auth.refresh_token (auth_service := auth_service) now' token s'
       = (Raise (HTTPException HTTP_401_UNAUTHORIZED detail), s'')) /\
    (forall now' token' pair' s'',
        decode_refresh_token now' token' = Return email ->
        routes_auth.refresh_token (auth_service := auth_service) now' token' s'
        = (Return pair', s'') ->
        token' = TokenSchema.refresh_token pair) /\
    (token = create_refresh_token now email ->
     forall now',
       decode_refresh_token now' token = Return email ->
       exists s'',
         routes_auth.refresh_token (auth_service := auth_service) now' token s'
         = (Return (TokenSchema.mk (create_access_token now' email)
                                   (create_refresh_token now' email) "bearer"), s'')).
Proof.
  intros Hrun.
  destruct (refresh_token_rotates_slot (auth_service := auth_service) _ _ _ _ _ Hrun)
    as (email & user' & Hdec & Hminted & Huser' & Hstored & _ & Honly).
  simpl in Hdec, Hminted. exists email, user'.
  split; [exact Hdec|]. split; [exact Hminted|]. split; [exact Huser'|].
  split; [exact Hstored|].
  rewrite Hminted in Hstored.
  split; [|split; [|split; [exact Honly|]]].
  - intros issued now' Hother.
    assert (Hissued : decode_refresh_token (issued) (create_refresh_token issued email)
                      = Return email).
    { unfold decode_refresh_token, create_refresh_token.
      rewrite decode_encode by reflexivity.
      assert (Hlt : (issued <? issued + lifetime "refresh_token") = true)
        by (apply Z.ltb_lt; vm_compute (lifetime "refresh_token"); lia).
      now rewrite Hlt. }
    apply (other_token_unauthorized issued now' _ email user' s' Hissued Huser').
    rewrite Hstored. intros Heq. apply Hother. symmetry.
    apply (encode_injective "refresh_token" now issued email eq_refl).
    exact (f_equal (fun slot => match slot with Some t => t | None => EmptyString end)
                   Heq).
  - intros Hconsumed now'.
    apply (other_token_unauthorized now now' token email user' s' Hdec Huser').
    rewrite Hstored. congruence.
  - intros Hsame now' Hdec'.
    apply get_user_by_email_Some in Huser'.
    rewrite (refresh_token_run (auth_service := auth_service) _ _ _ _ Hdec'), Huser'.
    rewrite Hstored, <- Hsame. simpl. rewrite String.eqb_refl. eexists. reflexivity.
Qed.
End TokenService.

(** ** Contacts *)
Section Contacts.
Context {env : Env}.
Import repositories_contacts.

Lemma owned_by_owned (user : User.t) (c : Contact.t) :
  owned_by user c = true <-> owned user c.
Proof. apply opt_Z_eqb_eq. Qed.

Lemma Forall_owned_filter (user : User.t) (l : list Contact.t) :
  Forall (owned user) (filter (owned_by user) l).
Proof.
  apply Forall_forall. intros c Hin. apply filter_In in Hin.
  now apply owned_by_owned.
Qed.

Lemma incl_firstn {A} (n : nat) (l : list A) : incl (firstn n l) l.
Proof. rewrite <- (firstn_skipn n l) at 2. apply incl_appl, incl_refl. Qed.

Lemma incl_skipn {A} (n : nat) (l : list A) : incl (skipn n l) l.
Proof. rewrite <- (firstn_skipn n l) at 2. apply incl_appr, incl_refl. Qed.

Lemma select_contact_run (contact_id : Z) (user : User.t) (s : State) :
  select_contact contact_id user s =
  (match rows_with_id contact_id user s with
   | [] => Return None
   | [c] => Return (Some c)
   | _ :: _ :: _ => Raise MultipleResultsFound
   end, s).
Proof.
  unfold select_contact. run_monad.
  now destruct (rows_with_id contact_id user s) as [|c [|y l]].
Qed.

(** A row selected for [user] is in the table and belongs to [user]. *)
Lemma rows_with_id_owned (contact_id : Z) (user : User.t) (s : State) (c : Contact.t) :
  In c (rows_with_id contact_id user s) ->
  In c (contacts s) /\ Contact.id c = contact_id /\ owned user c.
Proof.
  intros Hin. apply filter_In in Hin. destruct Hin as [Hin Hp].
  apply andb_true_iff in Hp. destruct Hp as [Hid Hown].
  apply Z.eqb_eq in Hid. apply owned_by_owned in Hown. auto.
Qed.

(** Rows of other owners do not carry the primary key of a row of [user]. *)
Lemma foreign_row_other_key (user : User.t) (rows : list Contact.t) (c r : Contact.t) :
  NoDup (map Contact.id rows) ->
  In c rows -> owned user c -> In r rows -> owned_by user r = false ->
  (Contact.id r =? Contact.id c) = false.
Proof.
  intros Hnd Hc Hown Hr Hforeign. apply Z.eqb_neq. intros Hid.
  assert (r = c) by (now apply (primary_key_injective Contact.id rows)).
  subst r. apply owned_by_owned in Hown. congruence.
Qed.

Lemma foreign_rows_update (user : User.t) (rows : list Contact.t) (c : Contact.t)
      (assign : Contact.t -> Contact.t) :
  (forall r, Contact.user_id (assign r) = Contact.user_id r) ->
  NoDup (map Contact.id rows) -> In c rows -> owned user c ->
  filter (fun r => negb (owned_by user r))
         (map (fun r => if Contact.id r =? Contact.id c then assign r else r) rows)
  = filter (fun r => negb (owned_by user r)) rows.
Proof.
  intros Hassign Hnd Hc Hown.
  assert (Hall : forall r, In r rows -> owned_by user r = false ->
                           (Contact.id r =? Contact.id c) = false)
    by (intros r Hr; now apply (foreign_row_other_key user rows)).
  clear Hnd Hc. induction rows as [|a rows IH]; simpl; [reflexivity|].
  specialize (IH (fun r Hr => Hall r (or_intror Hr))).
  destruct (owned_by user a) eqn:Ha.
  - assert (Hsame : owned_by user (if Contact.id a =? Contact.id c
                                   then assign a else a) = true).
    { destruct (Contact.id a =? Contact.id c); [|exact Ha].
      unfold owned_by in *. now rewrite Hassign. }
    rewrite Hsame. simpl. exact IH.
  - rewrite (Hall a (or_introl eq_refl) Ha), Ha. simpl. now rewrite IH.
Qed.

Lemma foreign_rows_delete (user : User.t) (rows : list Contact.t) (c : Contact.t) :
  NoDup (map Contact.id rows) -> In c rows -> owned user c ->
  filter (fun r => negb (owned_by user r))
         (filter (fun r => negb (Contact.id r =? Contact.id c)) rows)
  = filter (fun r => negb (owned_by user r)) rows.
Proof.
  intros Hnd Hc Hown.
  assert (Hall : forall r, In r rows -> owned_by user r = false ->
                           (Contact.id r =? Contact.id c) = false)
    by (intros r Hr; now apply (foreign_row_other_key user rows)).
  clear Hnd Hc. induction rows as [|a rows IH]; simpl; [reflexivity|].
  specialize (IH (fun r Hr => Hall r (or_intror Hr))).
  destruct (owned_by user a) eqn:Ha.
  - destruct (Contact.id a =? Contact.id c); simpl; rewrite ?Ha; simpl; exact IH.
  - rewrite (Hall a (or_introl eq_refl) Ha). simpl. rewrite Ha. simpl. now rewrite IH.
Qed.

Lemma create_contact_run (body : ContactSchema.t) (user : User.t) (s : State) :
  create_contact body user s =
  let contact :=
    Contact.mk (next_id (map Contact.id (contacts s)))
               (ContactSchema.firstname body) (ContactSchema.surname body)
               (ContactSchema.email body) (ContactSchema.phone body)
               (ContactSchema.birthday body) (ContactSchema.details body)
               (Some (User.id user)) in
  if fits_columns body
  then (Return contact, with_contacts (fun rows => (rows ++ [contact])%list) s)
  else (Raise DataError, s).
Proof. unfold create_contact. run_monad. now destruct (fits_columns body). Qed.

Lemma update_contact_run (contact_id : Z) (body : ContactUpdateSchema.t)
      (user : User.t) (s : State) :
  update_contact contact_id body user s =
  match rows_with_id contact_id user s with
  | [] => (Return None, s)
  | [contact] =>
      match ContactUpdateSchema.firstname body, ContactUpdateSchema.surname body,
            ContactUpdateSchema.email body, ContactUpdateSchema.phone body with
      | Some firstname, Some surname, Some email, Some phone =>
          let assign (r : Contact.t) :=
            Contact.mk (Contact.id r) firstname surname email phone
                       (ContactUpdateSchema.birthday body)
                       (ContactUpdateSchema.details body)
                       (Contact.user_id r) in
          (Return (Some (assign contact)),
           with_contacts (map (fun r => if Contact.id r =? Contact.id contact
                                        then assign r else r)) s)
      | _, _, _, _ => (Raise IntegrityError, s)
      end
  | _ :: _ :: _ => (Raise MultipleResultsFound, s)
  end.
Proof.
  unfold update_contact, bind at 1. rewrite select_contact_run.
  destruct (rows_with_id contact_id user s) as [|c [|y l]]; try reflexivity.
  destruct (ContactUpdateSchema.firstname body), (ContactUpdateSchema.surname body),
           (ContactUpdateSchema.email body), (ContactUpdateSchema.phone body);
    reflexivity.
Qed.

Lemma delete_contact_run (contact_id : Z) (user : User.t) (s : State) :
  delete_contact contact_id user s =
  match rows_with_id contact_id user s with
  | [] => (Return None, s)
  | [contact] =>
      (Return (Some contact),
       with_contacts (filter (fun r => negb (Contact.id r =? Contact.id contact))) s)
  | _ :: _ :: _ => (Raise MultipleResultsFound, s)
  end.
Proof.
  unfold delete_contact, bind at 1. rewrite select_contact_run.
  now destruct (rows_with_id contact_id user s) as [|c [|y l]].
Qed.

(** C8.  On a contacts table whose primary key is unique, every contact
    operation run for [user] returns only contacts that belong to [user],
    and leaves the rows of all other owners exactly as they were: the
    three listings (page, search, upcoming birthdays) and the lookup by id
    do not change the state at all, [create_contact] either appends one
    row owned by [user] or stores nothing, and [update_contact] and
    [delete_contact] touch no row of another owner. *)
Theorem contact_operations_scoped_by_owner (user : User.t) (s : State) :
  NoDup (map Contact.id (contacts s)) ->
  (forall limit offset, exists l,
      get_contacts limit offset user s = (Return l, s) /\
      Forall (owned user) l /\ incl l (contacts s)) /\
  (forall query, exists l,
      search_contacts query user s = (Return l, s) /\
      Forall (owned user) l /\ incl l (contacts s)) /\
  (forall today, exists l,
      get_upcoming_birthdays today user s = (Return l, s) /\
      Forall (owned user) l /\ incl l (contacts s)) /\
  (forall contact_id r s',
      get_contact contact_id user s = (r, s') ->
      s' = s /\
      forall c, r = Return (Some c) -> owned user c /\ In c (contacts s)) /\
  (forall body r s',
      create_contact body user s = (r, s') ->
      foreign_rows user s' = foreign_rows user s /\
      users s' = users s /\
      forall c, r = Return c ->
                owned user c /\ contacts s' = (contacts s ++ [c])%list) /\
  (forall contact_id body r s',
      update_contact contact_id body user s = (r, s') ->
      foreign_rows user s' = foreign_rows user s /\
      users s' = users s /\
      forall c, r = Return (Some c) -> owned user c) /\
  (forall contact_id r s',
      delete_contact contact_id user s = (r, s') ->
      foreign_rows user s' = foreign_rows user s /\
      users s' = users s /\
      forall c, r = Return (Some c) -> owned user c /\ In c (contacts s)).
Proof.
  intros Hnd. repeat apply conj.
  - intros limit offset. eexists. split; [reflexivity|].
    assert (Hpage : incl (firstn limit
                            (skipn offset
                               (row_order limit offset
                                  (filter (owned_by user) (contacts s)))))
                         (filter (owned_by user) (contacts s))).
    { eapply incl_tran; [apply incl_firstn|].
      eapply incl_tran; [apply incl_skipn|].
      intros c Hc. eapply Permutation_in; [apply row_order_permutes | exact Hc]. }
    split.
    + eapply incl_Forall; [exact Hpage | apply Forall_owned_filter].
    + eapply incl_tran; [exact Hpage | apply incl_filter].
  - intros query. eexists. split; [reflexivity|]. split.
    + eapply incl_Forall; [apply incl_filter|apply Forall_owned_filter].
    + eapply incl_tran; apply incl_filter.
  - intros today. eexists. split; [reflexivity|]. split.
    + eapply incl_Forall; [apply incl_filter|apply Forall_owned_filter].
    + eapply incl_tran; apply incl_filter.
  - intros contact_id r s'. unfold get_contact. rewrite select_contact_run.
    intros Hrun. injection Hrun as Hr Hs; subst r s'. split; [reflexivity|].
    intros c Hc.
    destruct (rows_with_id contact_id user s) as [|c0 [|y l]] eqn:Hrows;
      try discriminate.
    inversion Hc; subst.
    assert (Hin : In c (rows_with_id contact_id user s)) by (rewrite Hrows; now left).
    apply rows_with_id_owned in Hin. tauto.
  - intros body r s'. rewrite create_contact_run.
    destruct (fits_columns body); intros Hrun; injection Hrun as Hr Hs; subst r s'.
    + split; [|split; [reflexivity|]].
      * unfold foreign_rows, with_contacts. simpl. rewrite filter_app. simpl.
        unfold owned_by at 2. simpl. rewrite Z.eqb_refl. simpl. apply app_nil_r.
      * intros c Hc. injection Hc as <-. split; reflexivity.
    + repeat split; discriminate.
  - intros contact_id body r s'. rewrite update_contact_run.
    destruct (rows_with_id contact_id user s) as [|c0 [|y l]] eqn:Hrows.
    + intros Hrun. injection Hrun as Hr Hs; subst r s'. repeat split. discriminate.
    + assert (Hin : In c0 (rows_with_id contact_id user s)) by (rewrite Hrows; now left).
      apply rows_with_id_owned in Hin. destruct Hin as (Hin & _ & Hown).
      destruct (ContactUpdateSchema.firstname body), (ContactUpdateSchema.surname body),
               (ContactUpdateSchema.email body), (ContactUpdateSchema.phone body);
        intros Hrun; injection Hrun as Hr Hs; subst r s'; repeat split; try discriminate.
      * unfold foreign_rows, with_contacts. simpl.
        now apply (foreign_rows_update user (contacts s) c0).
      * intros c Hc. inversion Hc; subst. exact Hown.
    + intros Hrun. injection Hrun as Hr Hs; subst r s'. repeat split. discriminate.
  - intros contact_id r s'. rewrite delete_contact_run.
    destruct (rows_with_id contact_id user s) as [|c0 [|y l]] eqn:Hrows.
    + intros Hrun. injection Hrun as Hr Hs; subst r s'. repeat split; discriminate.
    + assert (Hin : In c0 (rows_with_id contact_id user s)) by (rewrite Hrows; now left).
      apply rows_with_id_owned in Hin. destruct Hin as (Hin & _ & Hown).
      intros Hrun. injection Hrun as Hr Hs; subst r s'. split; [|split; [reflexivity|]].
      * unfold foreign_rows, with_contacts. simpl.
        now apply foreign_rows_delete.
      * intros c Hc. inversion Hc; subst. auto.
    + intros Hrun. injection Hrun as Hr Hs; subst r s'. repeat split; discriminate.
Qed.
End Contacts.

(** ** Calendar arithmetic *)
Section Dates.
Import date.

Lemma _days_before_year_succ (y : Z) :
  _days_before_year (y + 1) =
  _days_before_year y + 365 + (if _is_leap y then 1 else 0).
Proof.
  unfold _days_before_year, _is_leap. cbv zeta.
  replace (y + 1 - 1) with y by lia.
  destruct (Z.eqb_spec (y mod 4) 0), (Z.eqb_spec (y mod 100) 0),
           (Z.eqb_spec (y mod 400) 0); simpl; Z.div_mod_to_equations; lia.
Qed.

Lemma _days_before_year_step (y : Z) :
  _days_before_year y + 365 <= _days_before_year (y + 1).
Proof. rewrite _days_before_year_succ. destruct (_is_leap y); lia. Qed.

Lemma _days_before_year_mono (a b : Z) :
  a <= b -> _days_before_year a <= _days_before_year b.
Proof.
  intros Hab. replace b with (a + Z.of_nat (Z.to_nat (b - a))) by lia.
  induction (Z.to_nat (b - a)) as [|n IH].
  - replace (a + Z.of_nat 0) with a by lia. lia.
  - replace (a + Z.of_nat (S n)) with (a + Z.of_nat n + 1) by lia.
    pose proof (_days_before_year_step (a + Z.of_nat n)). lia.
Qed.

Ltac month_cases m :=
  let H := fresh in
  assert (H : m = 1 \/ m = 2 \/ m = 3 \/ m = 4 \/ m = 5 \/ m = 6 \/
              m = 7 \/ m = 8 \/ m = 9 \/ m = 10 \/ m = 11 \/ m = 12) by lia;
  repeat (destruct H as [H|H]; [subst m|]); [..|subst m].

Ltac calendar :=
  cbv [_DAYS_IN_MONTH _DAYS_BEFORE_MONTH Z.eqb Z.ltb Z.compare
       Pos.compare Pos.compare_cont Pos.eqb andb] in *.

(** The day of the year, [_days_before_month y m + d], of a valid date. *)
Lemma day_of_year_bounds (d : date.t) :
  valid d ->
  1 <= _days_before_month (year d) (month d) + day d
    <= 365 + (if _is_leap (year d) then 1 else 0).
Proof.
  destruct d as [y m dd]. unfold valid, _days_in_month, _days_before_month. simpl.
  intros (_ & Hm & Hd). month_cases m; destruct (_is_leap y); calendar; lia.
Qed.

Lemma day_of_year_first_week (d : date.t) :
  valid d ->
  _days_before_month (year d) (month d) + day d <= 7 ->
  month d = 1 /\ day d <= 7.
Proof.
  destruct d as [y m dd]. unfold valid, _days_in_month, _days_before_month. simpl.
  intros (_ & Hm & Hd). month_cases m; destruct (_is_leap y); calendar; lia.
Qed.

Lemma day_of_year_last_week (d : date.t) :
  valid d ->
  359 + (if _is_leap (year d) then 1 else 0)
    <= _days_before_month (year d) (month d) + day d ->
  month d = 12 /\ 25 <= day d.
Proof.
  destruct d as [y m dd]. unfold valid, _days_in_month, _days_before_month. simpl.
  intros (_ & Hm & Hd). month_cases m; destruct (_is_leap y); calendar; lia.
Qed.

Lemma toordinal_within_year (d : date.t) :
  valid d ->
  _days_before_year (year d) < toordinal d <= _days_before_year (year d + 1).
Proof.
  intros Hv. pose proof (day_of_year_bounds d Hv).
  unfold toordinal. rewrite _days_before_year_succ. lia.
Qed.

(** Dates of an earlier year come first. *)
Lemma toordinal_year_lt (a b : date.t) :
  valid a -> valid b -> year a < year b -> toordinal a < toordinal b.
Proof.
  intros Ha Hb Hlt.
  pose proof (toordinal_within_year a Ha). pose proof (toordinal_within_year b Hb).
  pose proof (_days_before_year_mono (year a + 1) (year b)). lia.
Qed.

(** A date within seven days after [today] is in the year of [today], or
    in the first week of the next year when [today] is in the last week
    of December. *)
Lemma within_week_same_year (today b : date.t) :
  valid today -> valid b ->
  toordinal today <= toordinal b <= toordinal today + 7 ->
  year b = year today \/
  (year b = year today + 1 /\ month today = 12 /\ 25 <= day today /\
   month b = 1 /\ day b <= 7).
Proof.
  intros Ht Hb Hrange.
  destruct (Z.lt_trichotomy (year b) (year today)) as [Hlt|[Heq|Hgt]].
  - pose proof (toordinal_year_lt b today Hb Ht Hlt). lia.
  - now left.
  - right.
    pose proof (toordinal_within_year today Ht) as Hty.
    pose proof (toordinal_within_year b Hb) as Hby.
    pose proof (day_of_year_bounds today Ht) as Hdt.
    pose proof (day_of_year_bounds b Hb) as Hdb.
    assert (Hnext : year b = year today + 1).
    { destruct (Z.eq_dec (year b) (year today + 1)) as [|Hne]; [assumption|].
      pose proof (_days_before_year_mono (year today + 1 + 1) (year b)).
      pose proof (_days_before_year_step (year today + 1)). lia. }
    rewrite Hnext in *.
    unfold toordinal in Hrange. rewrite Hnext, _days_before_year_succ in Hrange.
    destruct (day_of_year_first_week b Hb) as [Hm Hd]; [rewrite Hnext; lia|].
    destruct (day_of_year_last_week today Ht) as [Hm' Hd']; [lia|].
    auto.
Qed.
(** *** The ordinal against the calendar *)

Lemma _is_leap_leap_year (y : Z) : _is_leap y = calendar.leap_year y.
Proof.
  unfold _is_leap, calendar.leap_year.
  destruct (Z.eqb_spec (y mod 400) 0), (Z.eqb_spec (y mod 100) 0),
           (Z.eqb_spec (y mod 4) 0); simpl; trivial;
    exfalso; Z.div_mod_to_equations; lia.
Qed.

Ltac calendar_months :=
  cbv [calendar.month_length _days_in_month _days_before_month
       _DAYS_IN_MONTH _DAYS_BEFORE_MONTH Z.eqb Z.ltb Z.compare
       Pos.compare Pos.compare_cont Pos.eqb andb orb] in *.

Lemma _days_in_month_month_length (y m : Z) :
  1 <= m <= 12 -> _days_in_month y m = calendar.month_length y m.
Proof.
  intros Hm. unfold calendar.month_length, _days_in_month.
  rewrite <- _is_leap_leap_year.
  month_cases m; destruct (_is_leap y); reflexivity.
Qed.

Lemma is_date_valid (d : date.t) : calendar.is_date d <-> valid d.
Proof.
  unfold calendar.is_date, calendar.is_day, valid.
  split; intros (Hy & Hm & Hd); (split; [exact Hy|]); (split; [exact Hm|]).
  - now rewrite _days_in_month_month_length.
  - now rewrite <- _days_in_month_month_length.
Qed.

Lemma month_length_bounds (y m : Z) : 28 <= calendar.month_length y m <= 31.
Proof.
  unfold calendar.month_length.
  destruct (m =? 2); [destruct (calendar.leap_year y); lia|].
  destruct ((m =? 4) || (m =? 6) || (m =? 9) || (m =? 11)); lia.
Qed.

Lemma _days_before_month_next (y m : Z) :
  1 <= m < 12 ->
  _days_before_month y (m + 1) = _days_before_month y m + calendar.month_length y m.
Proof.
  intros Hm. unfold calendar.month_length, _days_before_month.
  rewrite <- _is_leap_leap_year.
  month_cases m; try (exfalso; lia); destruct (_is_leap y); reflexivity.
Qed.

Lemma _days_before_month_december (y : Z) :
  _days_before_month y 12 + calendar.month_length y 12
  = 365 + (if _is_leap y then 1 else 0).
Proof. unfold _days_before_month. now destruct (_is_leap y). Qed.

(** The day after a date has the next ordinal. *)
Lemma toordinal_tomorrow (d : date.t) :
  calendar.is_day d ->
  calendar.is_day (calendar.tomorrow d) /\
  toordinal (calendar.tomorrow d) = toordinal d + 1.
Proof.
  destruct d as [y m dd]. unfold calendar.is_day, calendar.tomorrow. simpl.
  intros (Hm & Hd).
  destruct (Z.ltb_spec dd (calendar.month_length y m)) as [Hlt|Hge].
  - unfold toordinal. simpl. lia.
  - assert (Hlast : dd = calendar.month_length y m) by lia.
    destruct (Z.ltb_spec m 12) as [Hm'|Hm']; unfold toordinal; simpl.
    + pose proof (month_length_bounds y (m + 1)).
      rewrite _days_before_month_next by lia. lia.
    + assert (m = 12) by lia. subst m.
      pose proof (month_length_bounds (y + 1) 1).
      pose proof (_days_before_month_december y).
      rewrite _days_before_year_succ.
      change (_days_before_month (y + 1) 1) with 0. lia.
Qed.

Lemma toordinal_days_later (k : nat) (d : date.t) :
  calendar.is_day d ->
  calendar.is_day (calendar.days_later k d) /\
  toordinal (calendar.days_later k d) = toordinal d + Z.of_nat k.
Proof.
  intros Hd. induction k as [|k [IHday IHord]]; simpl calendar.days_later.
  - split; [exact Hd | lia].
  - destruct (toordinal_tomorrow _ IHday) as [Hday Hord]. split; [exact Hday | lia].
Qed.

Lemma is_day_within_year (d : date.t) :
  calendar.is_day d ->
  _days_before_year (year d) < toordinal d <= _days_before_year (year d + 1).
Proof.
  destruct d as [y m dd]. unfold calendar.is_day, toordinal. simpl.
  intros (Hm & Hd). rewrite _days_before_year_succ.
  unfold calendar.month_length, _days_before_month in *.
  rewrite <- ?_is_leap_leap_year in *.
  month_cases m; destruct (_is_leap y); calendar_months; lia.
Qed.

(** An earlier date, by year, month and day, has a smaller ordinal. *)
Lemma toordinal_earlier (a b : date.t) :
  calendar.is_day a -> calendar.is_day b ->
  year a < year b \/
  (year a = year b /\
   (month a < month b \/ (month a = month b /\ day a < day b))) ->
  toordinal a < toordinal b.
Proof.
  intros Ha Hb [Hy|(Hy & [Hm|(Hm & Hd)])].
  - pose proof (is_day_within_year a Ha). pose proof (is_day_within_year b Hb).
    pose proof (_days_before_year_mono (year a + 1) (year b)). lia.
  - destruct a as [y m dd], b as [y' m' dd'].
    unfold calendar.is_day, toordinal in *. simpl in *. subst y'.
    destruct Ha as (Hma & Hda), Hb as (Hmb & Hdb).
    unfold calendar.month_length, _days_before_month in *.
    rewrite <- ?_is_leap_leap_year in *.
    month_cases m; month_cases m'; try lia;
      destruct (_is_leap y); calendar_months; lia.
  - destruct a as [y m dd], b as [y' m' dd'].
    unfold toordinal. simpl in *. subst y' m'. lia.
Qed.

(** The order of the ordinals is the order of the calendar. *)
Lemma on_or_before_toordinal (a b : date.t) :
  calendar.is_day a -> calendar.is_day b ->
  (calendar.on_or_before a b <-> toordinal a <= toordinal b).
Proof.
  intros Ha Hb. unfold calendar.on_or_before. split.
  - intros [Hy|(Hy & [Hm|(Hm & Hd)])].
    + apply Z.lt_le_incl, toordinal_earlier; auto.
    + apply Z.lt_le_incl, toordinal_earlier; auto.
    + destruct (Z.eq_dec (day a) (day b)) as [Heq|Hne].
      * destruct a, b. simpl in *. subst. lia.
      * apply Z.lt_le_incl, toordinal_earlier; trivial. right. split; [exact Hy|].
        right. split; [exact Hm | lia].
  - intros Hle.
    destruct (Z.lt_trichotomy (year a) (year b)) as [Hy|[Hy|Hy]]; [now left| |].
    + right. split; [exact Hy|].
      destruct (Z.lt_trichotomy (month a) (month b)) as [Hm|[Hm|Hm]]; [now left| |].
      * right. split; [exact Hm|].
        destruct (Z_le_gt_dec (day a) (day b)) as [Hd|Hd]; [exact Hd|].
        assert (toordinal b < toordinal a); [|lia].
        apply toordinal_earlier; trivial. right. split; [now symmetry|].
        right. split; [now symmetry | lia].
      * assert (toordinal b < toordinal a); [|lia].
        apply toordinal_earlier; trivial. right. split; [now symmetry|]. now left.
    + assert (toordinal b < toordinal a); [|lia].
      apply toordinal_earlier; trivial. now left.
Qed.

Lemma toordinal_injective (a b : date.t) :
  calendar.is_day a -> calendar.is_day b -> toordinal a = toordinal b -> a = b.
Proof.
  intros Ha Hb Heq.
  assert (Hab : calendar.on_or_before a b) by (apply on_or_before_toordinal; trivial; lia).
  assert (Hba : calendar.on_or_before b a) by (apply on_or_before_toordinal; trivial; lia).
  unfold calendar.on_or_before in *. destruct a, b. simpl in *.
  assert (year0 = year1 /\ month0 = month1 /\ day0 = day1) as (-> & -> & ->) by lia.
  reflexivity.
Qed.

(** The window of [get_upcoming_birthdays], read off the calendar. *)
Lemma within_week_calendar (today b : date.t) :
  calendar.is_day today -> calendar.is_day b ->
  (toordinal today <= toordinal b <= toordinal today + 7 <->
   exists k, (k <= 7)%nat /\ b = calendar.days_later k today).
Proof.
  intros Ht Hb. split.
  - intros Hrange. exists (Z.to_nat (toordinal b - toordinal today)).
    split; [lia|].
    destruct (toordinal_days_later (Z.to_nat (toordinal b - toordinal today)) today Ht)
      as [Hday Hord].
    apply toordinal_injective; trivial. lia.
  - intros (k & Hk & ->).
    destruct (toordinal_days_later k today Ht) as [_ Hord]. lia.
Qed.
End Dates.

(** ** Upcoming birthdays and the 404 boundary *)
Section ContactRoutes.
Context {env : Env}.
Import date repositories_contacts.

Lemma filter_filter_andb {A} (p q : A -> bool) (l : list A) :
  filter p (filter q l) = filter (fun x => q x && p x) l.
Proof.
  induction l as [|x l IH]; simpl; [reflexivity|].
  destruct (q x); simpl; [destruct (p x)|]; now rewrite IH.
Qed.

(** C10.  [get_upcoming_birthdays] compares the stored birthday as a full
    date: it returns exactly the contacts of [user] whose birthday is
    [today] or one of the seven calendar days after it -- equivalently,
    whose birthday is on or after [today] and on or before the seventh day
    after [today], in the order of year, month and day.  Hence a returned
    birthday is in the year of [today] -- or in the first week of the next
    year when [today] is in the last week of December -- and a contact
    whose birthday is in any other year is never returned, whatever its
    month and day. *)
Theorem upcoming_birthdays_compare_full_date
        (today : date.t) (user : User.t) (s : State) :
  calendar.is_date today ->
  exists l,
    get_upcoming_birthdays today user s = (Return l, s) /\
    (forall c, calendar.is_date (Contact.birthday c) ->
               (In c l <->
                In c (contacts s) /\ owned user c /\
                exists k, (k <= 7)%nat /\
                          Contact.birthday c = calendar.days_later k today)) /\
    (forall c, calendar.is_date (Contact.birthday c) ->
               (In c l <->
                In c (contacts s) /\ owned user c /\
                calendar.on_or_before today (Contact.birthday c) /\
                calendar.on_or_before (Contact.birthday c)
                                      (calendar.days_later 7 today))) /\
    (forall c, In c l -> calendar.is_date (Contact.birthday c) ->
               year (Contact.birthday c) = year today \/
               (year (Contact.birthday c) = year today + 1 /\
                month today = 12 /\ 25 <= day today /\
                month (Contact.birthday c) = 1 /\ day (Contact.birthday c) <= 7)) /\
    (forall c, calendar.is_date (Contact.birthday c) ->
               year (Contact.birthday c) <> year today ->
               year (Contact.birthday c) <> year today + 1 ->
               ~ In c l).
Proof.
  intros Htoday. eexists. split; [reflexivity|].
  pose proof (proj2 Htoday) as Hday.
  destruct (toordinal_days_later 7 today Hday) as [Hday7 Hord7].
  assert (Hin : forall c,
             In c (filter (fun c => leb today (Contact.birthday c)
                                    && leb_plus_days (Contact.birthday c) today 7)
                          (filter (owned_by user) (contacts s))) <->
             In c (contacts s) /\ owned user c /\
             toordinal today <= toordinal (Contact.birthday c) <= toordinal today + 7).
  { intros c. rewrite !filter_In, andb_true_iff. unfold leb, leb_plus_days.
    rewrite !Z.leb_le, owned_by_owned. tauto. }
  assert (Hyear : forall c,
             In c (filter (fun c => leb today (Contact.birthday c)
                                    && leb_plus_days (Contact.birthday c) today 7)
                          (filter (owned_by user) (contacts s))) ->
             calendar.is_date (Contact.birthday c) ->
             year (Contact.birthday c) = year today \/
             (year (Contact.birthday c) = year today + 1 /\
              month today = 12 /\ 25 <= day today /\
              month (Contact.birthday c) = 1 /\ day (Contact.birthday c) <= 7)).
  { intros c Hc Hb. apply Hin in Hc. destruct Hc as (_ & _ & Hrange).
    apply within_week_same_year; trivial; now apply is_date_valid. }
  split; [|split; [|split; [exact Hyear|]]].
  - intros c Hb. rewrite Hin.
    now rewrite (within_week_calendar today (Contact.birthday c) Hday (proj2 Hb)).
  - intros c Hb. rewrite Hin.
    rewrite (on_or_before_toordinal today (Contact.birthday c) Hday (proj2 Hb)).
    rewrite (on_or_before_toordinal (Contact.birthday c) _ (proj2 Hb) Hday7).
    rewrite Hord7. simpl Z.of_nat. tauto.
  - intros c Hb Hne Hne' Hc. destruct (Hyear c Hc Hb) as [Hy|(Hy & _)]; contradiction.
Qed.

Lemma rows_with_id_nil (contact_id : Z) (user : User.t) (s : State) :
  (forall c, In c (contacts s) -> Contact.id c = contact_id -> ~ owned user c) ->
  rows_with_id contact_id user s = [].
Proof.
  intros Hnone.
  destruct (rows_with_id contact_id user s) as [|c l] eqn:Hrows; [reflexivity|].
  assert (Hin : In c (rows_with_id contact_id user s)) by (rewrite Hrows; now left).
  apply rows_with_id_owned in Hin. destruct Hin as (Hin & Hid & Hown).
  now destruct (Hnone c Hin Hid).
Qed.

(** C9.  What the delete operation does for a [contact_id] that matches no
    contact of [user]: the repository returns [None] without raising, and
    the route passes that [None] on as a normal (204) response.  It does
    not raise the 404 that its docstring announces and that the routes
    [get_contact] and [update_contact] raise on the same absence. *)
Theorem delete_contact_absent_is_not_reported
        (contact_id : Z) (user : User.t) (s : State) :
  (forall c, In c (contacts s) -> Contact.id c = contact_id -> ~ owned user c) ->
  repositories_contacts.delete_contact contact_id user s = (Return None, s) /\
  routes_contacts.delete_contact contact_id user s = (Return None, s) /\
  routes_contacts.get_contact contact_id user s = (Raise routes_contacts.NOT_FOUND, s) /\
  (forall body,
      routes_contacts.update_contact body contact_id user s
      = (Raise routes_contacts.NOT_FOUND, s)).
Proof.
  intros Hnone. apply rows_with_id_nil in Hnone.
  assert (Hrepo : repositories_contacts.delete_contact contact_id user s = (Return None, s))
    by (now rewrite delete_contact_run, Hnone).
  split; [exact Hrepo|]. split; [|split].
  - unfold routes_contacts.delete_contact, bind. now rewrite Hrepo.
  - unfold routes_contacts.get_contact, repositories_contacts.get_contact, bind.
    now rewrite select_contact_run, Hnone.
  - intros body. unfold routes_contacts.update_contact, bind.
    now rewrite update_contact_run, Hnone.
Qed.
End ContactRoutes.

(** ** Concrete runs

    The routes on [sample.db], with the reference collaborators. *)

Ltac no_dup := repeat constructor; simpl; intuition discriminate.

(** C1, counterexample.  Alice holds [sample.alice_token], issued at clock
  reading 100.  A refresh at the same reading mints the very same token,
  so the slot still holds the token that was just consumed, and presenting
  it once more (one tick later) succeeds. *)
Lemma consumed_refresh_token_accepted_again :
let refresh := routes_auth.refresh_token (auth_service := reference.auth_service) in
refresh 100 sample.alice_token sample.db
= (Return (TokenSchema.mk (reference.create_access_token 100 "a@x.com")
                          sample.alice_token "bearer"),
   sample.db) /\
fst (refresh 101 sample.alice_token sample.db)
= Return (TokenSchema.mk (reference.create_access_token 101 "a@x.com")
                         (reference.create_refresh_token 101 "a@x.com") "bearer").
Proof. split; vm_compute; reflexivity. Qed.

Lemma refresh_token_single_slot_witness :
  let refresh := routes_auth.refresh_token (auth_service := reference.auth_service) in
  let s' := snd (refresh 150 sample.alice_token sample.db) in
  fst (repositories_users.get_user_by_email "a@x.com" s')
  = Return (Some (User.set_refresh_token
                    (Some (reference.create_refresh_token 150 "a@x.com")) sample.alice)) /\
  (exists detail s'',
      refresh 160 sample.alice_token s'
      = (Raise (HTTPException HTTP_401_UNAUTHORIZED detail), s'')) /\
  (exists detail s'',
      refresh 160 sample.stale_token s'
      = (Raise (HTTPException HTTP_401_UNAUTHORIZED detail), s'')).
Proof.
  intros refresh s'.
  destruct (refresh_token_single_slot
              150 sample.alice_token
              (TokenSchema.mk (reference.create_access_token 150 "a@x.com")
                              (reference.create_refresh_token 150 "a@x.com") "bearer")
              sample.db s' eq_refl)
    as (email & user' & Hdec & _ & _ & _ & Hissued & Hconsumed & _).
  assert (Hemail : email = "a@x.com") by (vm_compute in Hdec; congruence).
  subst email. split; [reflexivity|]. split.
  - apply Hconsumed. intros Hsame. vm_compute in Hsame. discriminate Hsame.
  - apply (Hissued 0 160). discriminate.
Defined.

Lemma refresh_token_mismatch_witness :
exists s',
  routes_auth.refresh_token (auth_service := reference.auth_service)
                            150 sample.stale_token sample.db
  = (Raise (HTTPException HTTP_401_UNAUTHORIZED "Invalid refresh token"), s') /\
  fst (repositories_users.get_user_by_email "a@x.com" s')
  = Return (Some (User.set_refresh_token None sample.alice)).
Proof.
destruct (refresh_token_mismatch_clears_and_fails
            (auth_service := reference.auth_service)
            150 sample.stale_token "a@x.com" sample.alice sample.db)
  as (s' & Hrun & _ & Hstored & _).
- reflexivity.
- reflexivity.
- discriminate.
- exists s'. auto.
Defined.

(** C3, counterexample.  Three failing logins on [sample.db], one per cause:
  all three carry status 401, and the caller tells them apart by the
  detail message. *)
Lemma login_failure_causes_distinguishable :
let login := routes_auth.login (auth_service := reference.auth_service) in
fst (login 100 "nobody@x.com" "pw123" sample.db)
= Raise (HTTPException HTTP_401_UNAUTHORIZED "Invalid email") /\
fst (login 100 "b@x.com" "hunter2" sample.db)
= Raise (HTTPException HTTP_401_UNAUTHORIZED "Email is not confirmed") /\
fst (login 100 "a@x.com" "letmein" sample.db)
= Raise (HTTPException HTTP_401_UNAUTHORIZED "Invalid password") /\
fst (login 100 "nobody@x.com" "pw123" sample.db)
<> fst (login 100 "a@x.com" "letmein" sample.db) /\
fst (login 100 "b@x.com" "hunter2" sample.db)
<> fst (login 100 "a@x.com" "letmein" sample.db).
Proof. repeat split; vm_compute; (reflexivity || discriminate). Qed.

Lemma failed_login_changes_nothing_witness :
snd (routes_auth.login (auth_service := reference.auth_service)
                       100 "a@x.com" "letmein" sample.db) = sample.db.
Proof.
apply (failed_login_changes_nothing
         (auth_service := reference.auth_service)
         100 "a@x.com" "letmein"
         (HTTPException HTTP_401_UNAUTHORIZED "Invalid password")).
reflexivity.
Defined.

Lemma confirmed_email_idempotent_witness :
exists msg s',
  routes_auth.confirmed_email (auth_service := reference.auth_service)
                              60 sample.bob_email_token sample.db = (Return msg, s') /\
  msg = routes_auth.mkMessage "Email confirmed" /\
  routes_auth.confirmed_email (auth_service := reference.auth_service)
                              70 sample.bob_email_token s'
  = (Return (routes_auth.mkMessage "Your email is already confirmed"), s').
Proof.
destruct (confirmed_email_idempotent
            (auth_service := reference.auth_service)
            60 sample.bob_email_token "b@x.com" sample.bob sample.db)
  as (msg & s' & Hrun & Hmsg & _ & _ & Hagain).
- reflexivity.
- reflexivity.
- exists msg, s'. split; [exact Hrun|]. split; [now apply Hmsg|].
  apply Hagain. reflexivity.
Defined.

Lemma request_email_absent_user_witness :
routes_auth.request_email "nobody@x.com" "http://localhost:8000/" sample.db
= (Raise (AttributeError "'NoneType' object has no attribute 'confirmed'"), sample.db).
Proof.
apply (request_email_absent_user "nobody@x.com" "http://localhost:8000/" sample.db).
reflexivity.
Defined.

Lemma signup_conflict_iff_witness :
(exists detail,
    fst (routes_auth.signup (auth_service := reference.auth_service)
                            (env := reference.env)
                            (UserSchema.mk "alice2" "a@x.com" "pw")
                            "http://localhost:8000/" sample.db)
    = Raise (HTTPException HTTP_409_CONFLICT detail)) /\
(exists new_user,
    fst (routes_auth.signup (auth_service := reference.auth_service)
                            (env := reference.env)
                            sample.new_user "http://localhost:8000/" sample.db)
    = Return new_user /\
    User.password new_user = reference.get_password_hash "s3cret").
Proof.
split.
- apply (signup_conflict_iff
           (auth_service := reference.auth_service) (env := reference.env)
           (UserSchema.mk "alice2" "a@x.com" "pw") "http://localhost:8000/" sample.db).
  + no_dup.
  + exists sample.alice. split; [now left | reflexivity].
- destruct (signup_conflict_iff
              (auth_service := reference.auth_service) (env := reference.env)
              sample.new_user "http://localhost:8000/" sample.db)
    as (_ & _ & Hfresh).
  + no_dup.
  + destruct Hfresh as (new_user & Hrun & _ & _ & Hpw & _).
    * intros u [<-|[<-|[]]]; discriminate.
    * exists new_user. rewrite Hrun. auto.
Defined.

Lemma contact_operations_scoped_witness :
(forall r s',
    repositories_contacts.delete_contact 1 sample.alice sample.db = (r, s') ->
    foreign_rows sample.alice s' = [sample.erin_of_bob]) /\
(forall r s',
    repositories_contacts.delete_contact 3 sample.alice sample.db = (r, s') ->
    foreign_rows sample.alice s' = [sample.erin_of_bob]).
Proof.
destruct (contact_operations_scoped_by_owner (env := reference.env)
            sample.alice sample.db)
  as (_ & _ & _ & _ & _ & _ & Hdelete).
- no_dup.
- split; intros r s' Hrun; apply Hdelete in Hrun; destruct Hrun as (Hforeign & _);
    rewrite Hforeign; reflexivity.
Defined.

Lemma delete_contact_absent_witness :
routes_contacts.delete_contact 3 sample.alice sample.db = (Return None, sample.db) /\
routes_contacts.get_contact 3 sample.alice sample.db
= (Raise (HTTPException HTTP_404_NOT_FOUND "NOT FOUND"), sample.db).
Proof.
destruct (delete_contact_absent_is_not_reported 3 sample.alice sample.db)
  as (_ & Hdelete & Hget & _).
- intros c [<-|[<-|[<-|[]]]]; unfold owned; simpl; discriminate.
- split; assumption.
Defined.

Ltac is_date := unfold calendar.is_date, calendar.is_day; repeat split; vm_compute; discriminate.

Lemma upcoming_birthdays_witness :
  exists l,
    fst (repositories_contacts.get_upcoming_birthdays
           fixtures.late_february sample.alice fixtures.db_february) = Return l /\
    In fixtures.born_march_4 l /\
    ~ In fixtures.born_march_5 l /\
    ~ In fixtures.born_1990 l.
Proof.
  destruct (upcoming_birthdays_compare_full_date
              fixtures.late_february sample.alice fixtures.db_february)
    as (l & Hrun & Hdays & _ & _ & Hyear).
  - is_date.
  - exists l. split; [now rewrite Hrun|]. split; [|split].
    + apply Hdays; [is_date|]. split; [now left|]. split; [reflexivity|].
      exists 7%nat. split; [lia | reflexivity].
    + intros Hin. apply Hdays in Hin; [|is_date].
      destruct Hin as (_ & _ & k & Hk & Hk').
      do 8 (destruct k as [|k]; [vm_compute in Hk'; discriminate Hk'|]). lia.
    + apply Hyear; [is_date | discriminate | discriminate].
Defined.

(** * Further properties of the repositories and routes *)

(** ** The user directory: round trips and invariants *)
Section UserDirectoryMore.
Context {env : Env}.
Import repositories_users.

Lemma next_id_fresh (ids : list Z) : ~ In (next_id ids) ids.
Proof.
  assert (Hmax : forall x, In x ids -> x <= fold_right Z.max 0 ids).
  { induction ids as [|a ids IH]; simpl; [contradiction|].
    intros x [<-|Hin]; [lia|]. specialize (IH x Hin). lia. }
  intros Hin. apply Hmax in Hin. unfold next_id in Hin. lia.
Qed.

Lemma rows_with_email_app (email : string) (s : State) (u : User.t) :
  rows_with_email email (with_users (fun rows => (rows ++ [u])%list) s)
  = (rows_with_email email s
       ++ (if (User.email u =? email)%string then [u] else []))%list.
Proof. unfold rows_with_email, with_users. simpl. now rewrite filter_app. Qed.

Lemma get_user_by_email_fst_ext (email email' : string) (s s' : State) :
  rows_with_email email s' = rows_with_email email' s ->
  fst (get_user_by_email email s') = fst (get_user_by_email email' s).
Proof. intros Heq. rewrite !get_user_by_email_run. simpl. now rewrite Heq. Qed.

Lemma rows_with_email_In (email : string) (s : State) (u : User.t) :
  In u (rows_with_email email s) <-> In u (users s) /\ User.email u = email.
Proof. unfold rows_with_email. now rewrite filter_In, String.eqb_eq. Qed.

(** X1.  [create_user] for an e-mail that no row has appends one row with
    the fields of the body as given (the password is stored as passed in),
    unconfirmed and without refresh token; the new row is what a lookup of
    that e-mail then returns, and lookups of other e-mails are unaffected. *)
Theorem create_user_then_lookup (body : UserSchema.t) (s : State) :
  (forall u, In u (users s) -> User.email u <> UserSchema.email body) ->
  exists new_user s',
    create_user body s = (Return new_user, s') /\
    users s' = (users s ++ [new_user])%list /\
    contacts s' = contacts s /\ bt s' = bt s /\
    User.username new_user = UserSchema.username body /\
    User.email new_user = UserSchema.email body /\
    User.password new_user = UserSchema.password body /\
    User.avatar new_user = Gravatar_get_image (UserSchema.email body) /\
    User.confirmed new_user = false /\
    User.refresh_token new_user = None /\
    fst (get_user_by_email (UserSchema.email body) s') = Return (Some new_user) /\
    (forall email, email <> UserSchema.email body ->
                   fst (get_user_by_email email s') = fst (get_user_by_email email s)).
Proof.
  intros Hfresh. apply rows_with_email_nil_iff in Hfresh.
  set (new_user := User.mk (next_id (map User.id (users s)))
                           (UserSchema.username body) (UserSchema.email body)
                           (UserSchema.password body)
                           (Gravatar_get_image (UserSchema.email body)) None false).
  exists new_user, (with_users (fun rows => (rows ++ [new_user])%list) s).
  split.
  { unfold create_user. run_monad.
    now rewrite (rows_with_email_nil_existsb _ _ Hfresh). }
  repeat (split; [reflexivity|]). split.
  - apply get_user_by_email_Some. rewrite rows_with_email_app, Hfresh. simpl.
    now rewrite String.eqb_refl.
  - intros email Hne. apply get_user_by_email_fst_ext.
    rewrite rows_with_email_app. simpl.
    destruct (String.eqb_spec (UserSchema.email body) email) as [Heq|_];
      [now destruct Hne | apply app_nil_r].
Qed.

(** An update of the row of [user] leaves the rows of every other e-mail
    alone when the primary key is unique. *)
Lemma rows_with_email_update_row_other (email : string) (s : State) (user : User.t)
      (f : User.t -> User.t) :
  (forall r, User.email (f r) = User.email r) ->
  NoDup (map User.id (users s)) ->
  In user (users s) ->
  email <> User.email user ->
  rows_with_email email (snd (update_row user f s)) = rows_with_email email s.
Proof.
  intros Hf Hnd Hin Hne. unfold update_row, rows_with_email. run_monad.
  rewrite filter_map_same.
  - rewrite <- (map_id (filter _ (users s))) at 2. apply map_ext_in.
    intros r Hr. apply filter_In in Hr. destruct Hr as [Hr Hemail].
    apply String.eqb_eq in Hemail.
    destruct (Z.eqb_spec (User.id r) (User.id user)) as [Hid|_]; [|reflexivity].
    assert (r = user) by (now apply (primary_key_injective User.id (users s))).
    subst r. now destruct Hne.
  - intros r. destruct (User.id r =? User.id user); [now rewrite Hf | reflexivity].
Qed.

Lemma get_user_by_email_Some_In (email : string) (s : State) (user : User.t) :
  fst (get_user_by_email email s) = Return (Some user) ->
  In user (users s) /\ User.email user = email.
Proof.
  intros Huser. apply get_user_by_email_Some in Huser.
  apply rows_with_email_In. rewrite Huser. now left.
Qed.

(** The common shape of [update_token], [confirmed_email], [update_avatar]. *)
Lemma update_row_then_lookup (email : string) (user : User.t) (f : User.t -> User.t)
      (s : State) :
  (forall r, User.email (f r) = User.email r) ->
  NoDup (map User.id (users s)) ->
  fst (get_user_by_email email s) = Return (Some user) ->
  fst (get_user_by_email email (snd (update_row user f s))) = Return (Some (f user)) /\
  (forall email', email' <> email ->
     fst (get_user_by_email email' (snd (update_row user f s)))
     = fst (get_user_by_email email' s)) /\
  contacts (snd (update_row user f s)) = contacts s /\
  bt (snd (update_row user f s)) = bt s.
Proof.
  intros Hf Hnd Huser.
  destruct (get_user_by_email_Some_In _ _ _ Huser) as [Hin Hemail].
  apply get_user_by_email_Some in Huser. split; [|split; [|split; reflexivity]].
  - apply get_user_by_email_Some. now apply rows_with_email_update_row.
  - intros email' Hne. apply get_user_by_email_fst_ext.
    apply rows_with_email_update_row_other; trivial. congruence.
Qed.

(** X2.  [update_token] stores the token (or [None]) in the
    [refresh_token] column of the row of the user and leaves the id,
    username, e-mail, password hash, avatar and confirmed flag of that row
    as they were (the two timestamp columns are outside the model): the
    next lookup of the user's e-mail returns the user with the new token,
    and lookups of other e-mails and the contacts table are unaffected. *)
Theorem update_token_then_lookup (user : User.t) (token : option string) (s : State) :
  NoDup (map User.id (users s)) ->
  fst (get_user_by_email (User.email user) s) = Return (Some user) ->
  exists s',
    update_token user token s = (Return tt, s') /\
    fst (get_user_by_email (User.email user) s')
    = Return (Some (User.mk (User.id user) (User.username user) (User.email user)
                            (User.password user) (User.avatar user) token
                            (User.confirmed user))) /\
    (forall email, email <> User.email user ->
                   fst (get_user_by_email email s') = fst (get_user_by_email email s)) /\
    contacts s' = contacts s /\ bt s' = bt s.
Proof.
  intros Hnd Huser. exists (snd (update_token user token s)).
  split; [reflexivity|].
  apply (update_row_then_lookup (User.email user) user (User.set_refresh_token token));
    trivial.
Qed.

(** X3.  The repository's [confirmed_email] looks the user up again and
    sets the [confirmed] column of that row, leaving its id, username,
    e-mail, password hash, avatar and refresh token as they were (the two
    timestamp columns are outside the model); when no user has the e-mail
    it raises [AttributeError] and leaves the state as it was. *)
Theorem repository_confirmed_email_sets_flag (email : string) (s : State) :
  NoDup (map User.id (users s)) ->
  (forall user,
      fst (get_user_by_email email s) = Return (Some user) ->
      exists s',
        confirmed_email email s = (Return tt, s') /\
        fst (get_user_by_email email s')
        = Return (Some (User.mk (User.id user) (User.username user) (User.email user)
                                (User.password user) (User.avatar user)
                                (User.refresh_token user) true)) /\
        (forall email', email' <> email ->
           fst (get_user_by_email email' s') = fst (get_user_by_email email' s)) /\
        contacts s' = contacts s /\ bt s' = bt s) /\
  (fst (get_user_by_email email s) = Return None ->
   confirmed_email email s = (Raise (NoneType_has_no_attribute "confirmed"), s)).
Proof.
  intros Hnd. split.
  - intros user Huser. exists (snd (update_row user (User.set_confirmed true) s)).
    split.
    + unfold confirmed_email, bind. rewrite get_user_by_email_run.
      apply get_user_by_email_Some in Huser. now rewrite Huser.
    + apply (update_row_then_lookup email user (User.set_confirmed true)); trivial.
  - intros Hnone. apply get_user_by_email_None in Hnone.
    unfold confirmed_email, bind. now rewrite get_user_by_email_run, Hnone.
Qed.

Lemma update_avatar_found (email url : string) (user : User.t) (s : State) :
  fst (get_user_by_email email s) = Return (Some user) ->
  update_avatar email url s
  = (Return (User.set_avatar (Some url) user),
     snd (update_row user (User.set_avatar (Some url)) s)).
Proof.
  intros Huser. unfold update_avatar, bind at 1. rewrite get_user_by_email_run.
  apply get_user_by_email_Some in Huser. now rewrite Huser.
Qed.

(** X4.  [update_avatar] returns the user of the e-mail with the new avatar
    URL and with the id, username, e-mail, password hash, refresh token and
    confirmed flag as stored (the two timestamp columns are outside the
    model), and that is also what the next lookup returns; when no user has
    the e-mail it raises [AttributeError] and leaves the state as it was. *)
Theorem update_avatar_then_lookup (email url : string) (s : State) :
  NoDup (map User.id (users s)) ->
  (forall user,
      fst (get_user_by_email email s) = Return (Some user) ->
      exists user' s',
        update_avatar email url s = (Return user', s') /\
        user' = User.mk (User.id user) (User.username user) (User.email user)
                        (User.password user) (Some url)
                        (User.refresh_token user) (User.confirmed user) /\
        fst (get_user_by_email email s') = Return (Some user') /\
        (forall email', email' <> email ->
           fst (get_user_by_email email' s') = fst (get_user_by_email email' s)) /\
        contacts s' = contacts s /\ bt s' = bt s) /\
  (fst (get_user_by_email email s) = Return None ->
   update_avatar email url s = (Raise (NoneType_has_no_attribute "avatar"), s)).
Proof.
  intros Hnd. split.
  - intros user Huser.
    assert (Hrun : update_avatar email url s
                   = (Return (User.set_avatar (Some url) user),
                      snd (update_row user (User.set_avatar (Some url)) s))).
    { unfold update_avatar, bind at 1. rewrite get_user_by_email_run.
      apply get_user_by_email_Some in Huser. now rewrite Huser. }
    exists (User.set_avatar (Some url) user),
           (snd (update_row user (User.set_avatar (Some url)) s)).
    split; [exact Hrun|]. split; [reflexivity|].
    apply (update_row_then_lookup email user (User.set_avatar (Some url))); trivial.
  - intros Hnone. apply get_user_by_email_None in Hnone.
    unfold update_avatar, bind. now rewrite get_user_by_email_run, Hnone.
Qed.
Lemma update_row_ids (user : User.t) (f : User.t -> User.t) (s : State) :
  (forall r, User.id (f r) = User.id r) ->
  map User.id (users (snd (update_row user f s))) = map User.id (users s).
Proof.
  intros Hf. unfold update_row. run_monad. rewrite map_map.
  apply map_ext. intros r.
  destruct (User.id r =? User.id user); [apply Hf | reflexivity].
Qed.

Lemma NoDup_snoc {A} (l : list A) (x : A) :
  NoDup l -> ~ In x l -> NoDup (l ++ [x]).
Proof.
  intros Hnd Hx. induction l as [|a l IH]; simpl.
  - constructor; [intros []|constructor].
  - inversion Hnd as [|? ? Ha Hl]; subst. constructor.
    + rewrite in_app_iff. intros [Hin|[Heq|[]]]; [contradiction|].
      apply Hx. now left.
    + apply IH; trivial. intros Hin. apply Hx. now right.
Qed.

Lemma confirmed_email_state (email : string) (s : State) :
  snd (confirmed_email email s) =
  match rows_with_email email s with
  | [user] => snd (update_row user (User.set_confirmed true) s)
  | _ => s
  end.
Proof.
  unfold confirmed_email, bind. rewrite get_user_by_email_run.
  now destruct (rows_with_email email s) as [|user [|y l]].
Qed.

Lemma update_avatar_state (email url : string) (s : State) :
  snd (update_avatar email url s) =
  match rows_with_email email s with
  | [user] => snd (update_row user (User.set_avatar (Some url)) s)
  | _ => s
  end.
Proof.
  unfold update_avatar, bind at 1. rewrite get_user_by_email_run.
  now destruct (rows_with_email email s) as [|user [|y l]].
Qed.

(** X5.  The four writers of the users table keep both of its keys: when
    the primary keys and the e-mails of the table are pairwise different
    before [update_token], [confirmed_email], [update_avatar] or
    [create_user], they are so afterwards, whether the call returned or
    raised. *)
Theorem user_directory_keeps_keys_unique (s s' : State) :
  NoDup (map User.id (users s)) ->
  NoDup (map User.email (users s)) ->
  (exists user token, s' = snd (update_token user token s)) \/
  (exists email, s' = snd (confirmed_email email s)) \/
  (exists email url, s' = snd (update_avatar email url s)) \/
  (exists body, s' = snd (create_user body s)) ->
  NoDup (map User.id (users s')) /\ NoDup (map User.email (users s')).
Proof.
  intros Hid Hemail.
  assert (Hrow : forall user f,
             (forall r, User.id (f r) = User.id r) ->
             (forall r, User.email (f r) = User.email r) ->
             NoDup (map User.id (users (snd (update_row user f s)))) /\
             NoDup (map User.email (users (snd (update_row user f s))))).
  { intros user f Hfid Hfemail.
    now rewrite update_row_ids, update_row_unique_emails. }
  intros [(user & token & ->)|[(email & ->)|[(email & url & ->)|(body & ->)]]].
  - now apply Hrow.
  - rewrite confirmed_email_state.
    destruct (rows_with_email email s) as [|user [|y l]]; auto.
  - rewrite update_avatar_state.
    destruct (rows_with_email email s) as [|user [|y l]]; auto.
  - unfold create_user. run_monad.
    destruct (existsb _ (users s)) eqn:Hex; simpl; [auto|].
    rewrite !map_app. simpl. split; apply NoDup_snoc; trivial.
    + apply next_id_fresh.
    + intros Hin. apply in_map_iff in Hin. destruct Hin as (u & Heq & Hin).
      assert (Htrue : existsb (fun u => User.email u =? UserSchema.email body)%string
                              (users s) = true)
        by (apply existsb_exists; exists u; split; [exact Hin | now apply String.eqb_eq]).
      congruence.
Qed.
End UserDirectoryMore.

(** ** The authentication flow: sequences of requests *)
Section AuthFlowMore.
Context {auth_service : Auth} {env : Env}.
Import repositories_users routes_auth.

Lemma rows_with_email_found (email : string) (s : State) (user : User.t) :
  rows_with_email email s = [user] -> User.email user = email.
Proof.
  intros Hrows.
  assert (Hin : In user (rows_with_email email s)) by (rewrite Hrows; now left).
  now apply rows_with_email_In in Hin.
Qed.

(** X6.  [login] succeeds exactly when one user has the e-mail, is
    confirmed, and the password verifies against the stored hash.  It then
    returns a pair minted for that e-mail with token type "bearer", and the
    only change to the state is that the row of the user now holds the
    returned refresh token. *)
Theorem login_success (now : Z) (username password : string) (s : State) :
  ((exists pair s', login now username password s = (Return pair, s')) <->
   (exists user,
       fst (get_user_by_email username s) = Return (Some user) /\
       User.confirmed user = true /\
       verify_password password (User.password user) = true)) /\
  (forall pair s',
      login now username password s = (Return pair, s') ->
      pair = TokenSchema.mk (create_access_token now username)
                            (create_refresh_token now username) "bearer" /\
      (exists user,
          fst (get_user_by_email username s) = Return (Some user) /\
          fst (get_user_by_email username s')
          = Return (Some (User.set_refresh_token
                            (Some (TokenSchema.refresh_token pair)) user)) /\
          s' = snd (update_token user (Some (TokenSchema.refresh_token pair)) s)) /\
      contacts s' = contacts s /\ bt s' = bt s).
Proof.
  rewrite login_run, get_user_by_email_run.
  destruct (rows_with_email username s) as [|user [|y l]] eqn:Hrows; simpl.
  - split; [split|]; [intros (p & s' & H) | intros (u & H & _) | intros p s' H];
      discriminate.
  - pose proof (rows_with_email_found _ _ _ Hrows) as Hemail.
    destruct (User.confirmed user) eqn:Hc; simpl;
      [destruct (verify_password password (User.password user)) eqn:Hv; simpl|].
    + split; [split|].
      * intros _. exists user. auto.
      * intros _. eauto.
      * intros pair s' Hrun. injection Hrun as <- <-. rewrite Hemail.
        split; [reflexivity|]. split; [|split; reflexivity].
        exists user. split; [reflexivity|]. split; [|reflexivity].
        apply get_user_by_email_Some. now apply rows_with_email_update_row.
    + split; [split|];
        [intros (p & s' & H) | intros (u & H & _ & Hv') | intros p s' H];
        try discriminate. injection H as <-. congruence.
    + split; [split|];
        [intros (p & s' & H) | intros (u & H & Hc' & _) | intros p s' H];
        try discriminate. injection H as <-. congruence.
  - split; [split|]; [intros (p & s' & H) | intros (u & H & _) | intros p s' H];
      discriminate.
Qed.

Lemma signup_fresh_state (body : UserSchema.t) (base_url : string) (s : State) :
  (forall u, In u (users s) -> User.email u <> UserSchema.email body) ->
  exists new_user,
    signup body base_url s =
    (Return new_user,
     mkState (users s ++ [new_user]) (contacts s)
             (bt s ++ [send_email (UserSchema.email body) (UserSchema.username body)
                                  base_url])) /\
    new_user = User.mk (next_id (map User.id (users s)))
                       (UserSchema.username body) (UserSchema.email body)
                       (get_password_hash (UserSchema.password body))
                       (Gravatar_get_image (UserSchema.email body)) None false /\
    rows_with_email (UserSchema.email body) (snd (signup body base_url s)) = [new_user].
Proof.
  intros Hfresh. apply rows_with_email_nil_iff in Hfresh.
  rewrite signup_run, Hfresh. cbv zeta. eexists. split; [reflexivity|].
  split; [reflexivity|]. unfold rows_with_email in *. simpl.
  rewrite filter_app, Hfresh. simpl. now rewrite String.eqb_refl.
Qed.

(** X7.  Right after [signup], a [login] with the new e-mail is refused with
    401 "Email is not confirmed", whatever password is presented, and
    leaves the state as [signup] left it. *)
Theorem signup_then_login_is_refused
        (body : UserSchema.t) (base_url password : string) (now : Z) (s : State) :
  (forall u, In u (users s) -> User.email u <> UserSchema.email body) ->
  login now (UserSchema.email body) password (snd (signup body base_url s))
  = (Raise (HTTPException HTTP_401_UNAUTHORIZED "Email is not confirmed"),
     snd (signup body base_url s)).
Proof.
  intros Hfresh.
  destruct (signup_fresh_state body base_url s Hfresh) as (new_user & _ & Hnew & Hrows).
  rewrite login_run, Hrows. now subst new_user.
Qed.

(** X8.  [signup], then [confirmed_email] with a token whose subject is the
    new e-mail, then [login] with the password of the signup: the
    confirmation answers "Email confirmed" and the login succeeds, provided
    the hasher verifies the password against the hash it produced for it. *)
Theorem signup_confirm_login
        (body : UserSchema.t) (base_url token : string) (now now' : Z) (s : State) :
  (forall u, In u (users s) -> User.email u <> UserSchema.email body) ->
  get_email_from_token now token = Return (UserSchema.email body) ->
  verify_password (UserSchema.password body)
                  (get_password_hash (UserSchema.password body)) = true ->
  exists s2 s3,
    routes_auth.confirmed_email now token (snd (signup body base_url s))
    = (Return (mkMessage "Email confirmed"), s2) /\
    login now' (UserSchema.email body) (UserSchema.password body) s2
    = (Return (TokenSchema.mk (create_access_token now' (UserSchema.email body))
                              (create_refresh_token now' (UserSchema.email body))
                              "bearer"), s3).
Proof.
  intros Hfresh Hdec Hverify.
  destruct (signup_fresh_state body base_url s Hfresh) as (new_user & Hrun & Hnew & Hrows).
  set (s1 := snd (signup body base_url s)) in *.
  assert (Hc : User.confirmed new_user = false) by (now subst new_user).
  rewrite (confirmed_email_run _ _ _ _ Hdec), Hrows, Hc.
  exists (snd (update_row new_user (User.set_confirmed true) s1)).
  assert (Hrows2 : rows_with_email (UserSchema.email body)
                     (snd (update_row new_user (User.set_confirmed true) s1))
                   = [User.set_confirmed true new_user])
    by (now apply rows_with_email_update_row).
  rewrite login_run, Hrows2. simpl.
  assert (Hpw : User.password new_user = get_password_hash (UserSchema.password body))
    by (now subst new_user).
  assert (Hemail : User.email new_user = UserSchema.email body) by (now subst new_user).
  rewrite Hpw, Hverify, Hemail. simpl. eexists. split; reflexivity.
Qed.

Lemma login_Return_inv (now : Z) (username password : string) (pair : TokenSchema.t)
      (s s1 : State) :
  login now username password s = (Return pair, s1) ->
  exists user,
    rows_with_email username s = [user] /\
    TokenSchema.refresh_token pair = create_refresh_token now username /\
    s1 = snd (update_token user (Some (create_refresh_token now username)) s).
Proof.
  rewrite login_run.
  destruct (rows_with_email username s) as [|user [|y l]] eqn:Hrows; try discriminate.
  pose proof (rows_with_email_found _ _ _ Hrows) as Hemail.
  destruct (negb (User.confirmed user)); [discriminate|].
  destruct (negb (verify_password password (User.password user))); [discriminate|].
  intros Hrun. injection Hrun as <- <-. rewrite Hemail. exists user. auto.
Qed.

(** X9.  The refresh token that a successful [login] returned is accepted
    by the next [refresh_token] call, provided it decodes to the e-mail that
    logged in: the call returns a pair minted at its own clock reading and
    stores the new refresh token in place of the old one. *)
Theorem login_then_refresh
        (now now' : Z) (username password : string) (pair : TokenSchema.t)
        (s s1 : State) :
  login now username password s = (Return pair, s1) ->
  decode_refresh_token now' (TokenSchema.refresh_token pair) = Return username ->
  exists s2 user',
    refresh_token now' (TokenSchema.refresh_token pair) s1
    = (Return (TokenSchema.mk (create_access_token now' username)
                              (create_refresh_token now' username) "bearer"), s2) /\
    fst (get_user_by_email username s2) = Return (Some user') /\
    User.refresh_token user' = Some (create_refresh_token now' username).
Proof.
  intros Hlogin Hdec.
  destruct (login_Return_inv _ _ _ _ _ _ Hlogin) as (user & Huser & Hpair & ->).
  assert (Huser1 : rows_with_email username
                     (snd (update_token user (Some (create_refresh_token now username)) s))
                   = [User.set_refresh_token
                        (Some (create_refresh_token now username)) user])
    by (now apply rows_with_email_update_row).
  rewrite Hpair in *.
  rewrite (refresh_token_run _ _ _ _ Hdec), Huser1. simpl.
  rewrite String.eqb_refl.
  set (old := User.set_refresh_token (Some (create_refresh_token now username)) user) in *.
  set (s1 := snd (update_token user (Some (create_refresh_token now username)) s)) in *.
  exists (snd (update_token old (Some (create_refresh_token now' username)) s1)),
         (User.set_refresh_token (Some (create_refresh_token now' username)) old).
  split; [reflexivity|]. split; [|reflexivity].
  apply get_user_by_email_Some. now apply rows_with_email_update_row.
Qed.
(** X10.  Once a mismatching refresh token has been presented for a user,
    the session is closed: every later [refresh_token] call with a token of
    that subject -- the genuine, formerly stored one included -- fails with
    401 "Invalid refresh token", until a new login stores a token again. *)
Theorem refresh_mismatch_closes_session
        (now : Z) (token email : string) (user : User.t) (s : State) :
  decode_refresh_token now token = Return email ->
  fst (get_user_by_email email s) = Return (Some user) ->
  User.refresh_token user <> Some token ->
  forall now' token',
    decode_refresh_token now' token' = Return email ->
    refresh_token now' token' (snd (refresh_token now token s))
    = (Raise (HTTPException HTTP_401_UNAUTHORIZED "Invalid refresh token"),
       snd (refresh_token now token s)).
Proof.
  intros Hdec Huser Hneq now' token' Hdec'.
  apply get_user_by_email_Some in Huser.
  rewrite (refresh_token_mismatch_run now token email user s Hdec Huser Hneq).
  cbn [snd].
  assert (Hstored : rows_with_email email (snd (update_token user None s))
                    = [User.set_refresh_token None user])
    by (now apply rows_with_email_update_row).
  rewrite (refresh_token_run _ _ _ _ Hdec'), Hstored. simpl.
  f_equal. unfold update_token, update_row, with_users. run_monad.
  f_equal. rewrite map_map. apply map_ext. intros r.
  destruct (User.id r =? User.id user) eqn:Hid; simpl; rewrite Hid; reflexivity.
Qed.

(** X11.  A refresh token that decodes to an e-mail which no user has makes
    [refresh_token] raise [AttributeError] (a server error, not a 401): the
    route reads [user.refresh_token] without testing [user].  A token that
    does not decode fails with the decoder's own error.  The state is
    unchanged in both cases. *)
Theorem refresh_token_without_user (now : Z) (token : string) (s : State) :
  (forall email,
      decode_refresh_token now token = Return email ->
      fst (get_user_by_email email s) = Return None ->
      refresh_token now token s
      = (Raise (NoneType_has_no_attribute "refresh_token"), s)) /\
  (forall e,
      decode_refresh_token now token = Raise e ->
      refresh_token now token s = (Raise e, s)).
Proof.
  split.
  - intros email Hdec Hnone. apply get_user_by_email_None in Hnone.
    now rewrite (refresh_token_run _ _ _ _ Hdec), Hnone.
  - intros e Hdec. now apply refresh_token_decode_fails.
Qed.

(** X12.  [confirmed_email] fails with 400 "Verification error" when the
    subject of the token names no user, and with the decoder's own error
    when the token does not decode; it changes nothing in either case, and
    it never touches a refresh token or the contacts. *)
Theorem confirmed_email_failures (now : Z) (token : string) (s : State) :
  (forall email,
      get_email_from_token now token = Return email ->
      fst (get_user_by_email email s) = Return None ->
      routes_auth.confirmed_email now token s
      = (Raise (HTTPException HTTP_400_BAD_REQUEST "Verification error"), s)) /\
  (forall e,
      get_email_from_token now token = Raise e ->
      routes_auth.confirmed_email now token s = (Raise e, s)) /\
  map User.refresh_token (users (snd (routes_auth.confirmed_email now token s)))
  = map User.refresh_token (users s) /\
  contacts (snd (routes_auth.confirmed_email now token s)) = contacts s.
Proof.
  split; [|split].
  - intros email Hdec Hnone. apply get_user_by_email_None in Hnone.
    now rewrite (confirmed_email_run _ _ _ _ Hdec), Hnone.
  - intros e Hdec. unfold routes_auth.confirmed_email, bind, lift. now rewrite Hdec.
  - destruct (get_email_from_token now token) as [email|e] eqn:Hdec.
    + rewrite (confirmed_email_run _ _ _ _ Hdec).
      destruct (rows_with_email email s) as [|user [|y l]]; simpl; auto.
      destruct (User.confirmed user); simpl; auto. split; [|reflexivity].
      rewrite map_map. apply map_ext. intros r.
      now destruct (User.id r =? User.id user).
    + unfold routes_auth.confirmed_email, bind, lift. rewrite Hdec. auto.
Qed.

(** X13.  For an existing user [request_email] never fails and never
    changes a table: when the user is confirmed it answers "Your email is
    already confirmed" and queues nothing; otherwise it queues exactly one
    [send_email] task, addressed to the stored e-mail and username, and
    answers "Check your email for confirmation.". *)
Theorem request_email_effect (email base_url : string) (user : User.t) (s : State) :
  fst (get_user_by_email email s) = Return (Some user) ->
  exists msg s',
    request_email email base_url s = (Return msg, s') /\
    users s' = users s /\ contacts s' = contacts s /\
    (User.confirmed user = true ->
     msg = mkMessage "Your email is already confirmed" /\ bt s' = bt s) /\
    (User.confirmed user = false ->
     msg = mkMessage "Check your email for confirmation." /\
     bt s' = (bt s ++ [send_email email (User.username user) base_url])%list).
Proof.
  intros Huser. rewrite (request_email_existing_user _ _ _ _ Huser).
  apply get_user_by_email_Some_In in Huser. destruct Huser as [_ Hemail].
  destruct (User.confirmed user); eexists; eexists;
    (split; [reflexivity|]); simpl; repeat split; try discriminate.
  now rewrite Hemail.
Qed.

Lemma request_email_state (email base_url : string) (s : State) :
  snd (request_email email base_url s) =
  match rows_with_email email s with
  | [user] =>
      if User.confirmed user then s
      else add_task (send_email (User.email user) (User.username user) base_url) s
  | _ => s
  end.
Proof.
  unfold request_email, bind at 1. rewrite get_user_by_email_run.
  destruct (rows_with_email email s) as [|user [|y l]]; try reflexivity.
  run_monad. now destruct (User.confirmed user).
Qed.

(** X14.  No route of the authentication flow touches the contacts table,
    and [login], [refresh_token], [confirmed_email] and [request_email]
    never add or remove a user nor change the primary key, username,
    e-mail, password hash or avatar of any user, whatever their outcome. *)
Theorem auth_routes_frame (s : State) :
  let identity (u : User.t) :=
    (User.id u, User.username u, User.email u, User.password u, User.avatar u) in
  (forall body base_url, contacts (snd (signup body base_url s)) = contacts s) /\
  (forall now username password,
      contacts (snd (login now username password s)) = contacts s /\
      map identity (users (snd (login now username password s)))
      = map identity (users s)) /\
  (forall now token,
      contacts (snd (refresh_token now token s)) = contacts s /\
      map identity (users (snd (refresh_token now token s)))
      = map identity (users s)) /\
  (forall now token,
      contacts (snd (routes_auth.confirmed_email now token s)) = contacts s /\
      map identity (users (snd (routes_auth.confirmed_email now token s)))
      = map identity (users s)) /\
  (forall email base_url,
      contacts (snd (request_email email base_url s)) = contacts s /\
      users (snd (request_email email base_url s)) = users s).
Proof.
  intros identity.
  assert (Hrow : forall user f,
             (forall r, identity (f r) = identity r) ->
             contacts (snd (update_row user f s)) = contacts s /\
             map identity (users (snd (update_row user f s))) = map identity (users s)).
  { intros user f Hf. split; [reflexivity|].
    unfold update_row. run_monad. rewrite map_map.
    rewrite <- (map_id (users s)) at 2. rewrite map_map. apply map_ext.
    intros r. destruct (User.id r =? User.id user); [apply Hf | reflexivity]. }
  repeat apply conj.
  - intros body base_url. rewrite signup_run.
    now destruct (rows_with_email (UserSchema.email body) s) as [|u [|y l]].
  - intros now username password. rewrite login_run.
    destruct (rows_with_email username s) as [|user [|y l]]; auto.
    destruct (negb (User.confirmed user)); auto.
    destruct (negb (verify_password password (User.password user))); auto.
    now apply Hrow.
  - intros now token.
    destruct (decode_refresh_token now token) as [email|e] eqn:Hdec.
    + rewrite (refresh_token_run _ _ _ _ Hdec).
      destruct (rows_with_email email s) as [|user [|y l]]; auto.
      destruct (opt_str_eqb (User.refresh_token user) (Some token)); now apply Hrow.
    + rewrite (refresh_token_decode_fails _ _ _ _ Hdec). auto.
  - intros now token.
    destruct (get_email_from_token now token) as [email|e] eqn:Hdec.
    + rewrite (confirmed_email_run _ _ _ _ Hdec).
      destruct (rows_with_email email s) as [|user [|y l]]; auto.
      destruct (User.confirmed user); auto. now apply Hrow.
    + unfold routes_auth.confirmed_email, bind, lift. rewrite Hdec. auto.
  - intros email base_url. rewrite request_email_state.
    destruct (rows_with_email email s) as [|user [|y l]]; auto.
    destruct (User.confirmed user); auto.
Qed.
(** X25.  [signup] keeps both keys of the users table unique, and after any
    [signup] for an e-mail -- successful or not -- a further [signup] with
    that e-mail fails with 409 Conflict and changes nothing: no sequence of
    signups leaves two users with one e-mail. *)
Theorem signup_twice_conflicts
        (body body' : UserSchema.t) (base_url base_url' : string) (s : State) :
  NoDup (map User.id (users s)) ->
  NoDup (map User.email (users s)) ->
  UserSchema.email body' = UserSchema.email body ->
  NoDup (map User.id (users (snd (signup body base_url s)))) /\
  NoDup (map User.email (users (snd (signup body base_url s)))) /\
  signup body' base_url' (snd (signup body base_url s))
  = (Raise (HTTPException HTTP_409_CONFLICT ACCOUNT_EXIST), snd (signup body base_url s)).
Proof.
  intros Hid Hemail Hsame.
  split; [|split; [now apply signup_keeps_emails_unique|]].
  - rewrite signup_run.
    destruct (rows_with_email (UserSchema.email body) s) as [|u [|y l]]; trivial.
    simpl. rewrite map_app. simpl. apply NoDup_snoc; [exact Hid|apply next_id_fresh].
  - rewrite (signup_run body'), Hsame.
    destruct (unique_column_filter User.email (UserSchema.email body) (users s) Hemail)
      as [Hrows|(x & Hrows)]; fold (rows_with_email (UserSchema.email body) s) in Hrows.
    + pose proof (proj1 (rows_with_email_nil_iff _ _) Hrows) as Hfresh.
      destruct (signup_fresh_state body base_url s Hfresh) as (new_user & _ & _ & Hnew).
      now rewrite Hnew.
    + rewrite (signup_run body), Hrows. simpl. now rewrite Hrows.
Qed.
End AuthFlowMore.

(** ** Contacts: round trips, pagination and invariants *)
Section ContactsMore.
Context {env : Env}.
Import repositories_contacts.

Lemma get_contact_run (contact_id : Z) (user : User.t) (s : State) :
  get_contact contact_id user s =
  (match rows_with_id contact_id user s with
   | [] => Return None
   | [c] => Return (Some c)
   | _ :: _ :: _ => Raise MultipleResultsFound
   end, s).
Proof. apply select_contact_run. Qed.

Lemma get_contact_Some (contact_id : Z) (user : User.t) (s : State) (c : Contact.t) :
  fst (get_contact contact_id user s) = Return (Some c) <->
  rows_with_id contact_id user s = [c].
Proof.
  rewrite get_contact_run. simpl.
  destruct (rows_with_id contact_id user s) as [|x [|y l]]; split; congruence.
Qed.



Lemma rows_with_id_map (contact_id : Z) (user : User.t) (s : State)
      (g : Contact.t -> Contact.t) :
  (forall r, Contact.id (g r) = Contact.id r) ->
  (forall r, Contact.user_id (g r) = Contact.user_id r) ->
  rows_with_id contact_id user (with_contacts (map g) s)
  = map g (rows_with_id contact_id user s).
Proof.
  intros Hid Hown. unfold rows_with_id, with_contacts. simpl.
  apply filter_map_same. intros r. unfold owned_by. now rewrite Hid, Hown.
Qed.

(** X16.  [update_contact] on a contact of [user], with all four text
    fields present in the body, overwrites the six editable columns and
    keeps the primary key and the owner; a following [get_contact] returns
    the updated contact. *)
Theorem update_contact_then_get
        (contact_id : Z) (body : ContactUpdateSchema.t) (user : User.t) (s : State)
        (c : Contact.t) (firstname surname email phone : string) :
  fst (get_contact contact_id user s) = Return (Some c) ->
  ContactUpdateSchema.firstname body = Some firstname ->
  ContactUpdateSchema.surname body = Some surname ->
  ContactUpdateSchema.email body = Some email ->
  ContactUpdateSchema.phone body = Some phone ->
  exists c' s',
    update_contact contact_id body user s = (Return (Some c'), s') /\
    c' = Contact.mk contact_id firstname surname email phone
                    (ContactUpdateSchema.birthday body)
                    (ContactUpdateSchema.details body) (Some (User.id user)) /\
    get_contact contact_id user s' = (Return (Some c'), s') /\
    users s' = users s /\ bt s' = bt s.
Proof.
  intros Hget Hf Hs He Hp. apply get_contact_Some in Hget.
  assert (Hin : In c (rows_with_id contact_id user s)) by (rewrite Hget; now left).
  apply rows_with_id_owned in Hin. destruct Hin as (_ & Hid & Hown).
  rewrite update_contact_run, Hget, Hf, Hs, He, Hp. cbv zeta.
  eexists. eexists. split; [reflexivity|]. split.
  { simpl. rewrite Hid. unfold owned in Hown. now rewrite Hown. }
  split; [|split; reflexivity].
  rewrite get_contact_run.
  rewrite rows_with_id_map, Hget.
  - simpl. now rewrite Z.eqb_refl.
  - intros r. now destruct (Contact.id r =? Contact.id c).
  - intros r. now destruct (Contact.id r =? Contact.id c).
Qed.

(** X17.  [update_contact] on a contact of [user] with one of the four text
    fields left out of the body is rejected by the NOT NULL columns: it
    raises [IntegrityError] and the tables are as before. *)
Theorem update_contact_missing_field
        (contact_id : Z) (body : ContactUpdateSchema.t) (user : User.t) (s : State)
        (c : Contact.t) :
  fst (get_contact contact_id user s) = Return (Some c) ->
  ContactUpdateSchema.firstname body = None \/
  ContactUpdateSchema.surname body = None \/
  ContactUpdateSchema.email body = None \/
  ContactUpdateSchema.phone body = None ->
  update_contact contact_id body user s = (Raise IntegrityError, s) /\
  routes_contacts.update_contact body contact_id user s = (Raise IntegrityError, s).
Proof.
  intros Hget Hnone. apply get_contact_Some in Hget.
  assert (Hrun : update_contact contact_id body user s = (Raise IntegrityError, s)).
  { rewrite update_contact_run, Hget.
    destruct (ContactUpdateSchema.firstname body), (ContactUpdateSchema.surname body),
             (ContactUpdateSchema.email body), (ContactUpdateSchema.phone body);
      try reflexivity.
    destruct Hnone as [H|[H|[H|H]]]; discriminate. }
  split; [exact Hrun|].
  unfold routes_contacts.update_contact, bind. now rewrite Hrun.
Qed.

Lemma rows_with_id_deleted (contact_id : Z) (user : User.t) (s : State) (c : Contact.t) :
  Contact.id c = contact_id ->
  rows_with_id contact_id user
    (with_contacts (filter (fun r => negb (Contact.id r =? Contact.id c))) s) = [].
Proof.
  intros Hid. unfold rows_with_id, with_contacts. simpl.
  rewrite filter_filter_andb. rewrite Hid.
  induction (contacts s) as [|a l IH]; simpl; [reflexivity|].
  now destruct (Contact.id a =? contact_id).
Qed.

(** X18.  [delete_contact] on a contact of [user] returns the deleted
    contact; afterwards the key is gone: [get_contact] returns [None], the
    route [get_contact] raises 404, and a second [delete_contact] returns
    [None] and changes nothing. *)
Theorem delete_contact_then_get
        (contact_id : Z) (user : User.t) (s : State) (c : Contact.t) :
  fst (get_contact contact_id user s) = Return (Some c) ->
  exists s',
    delete_contact contact_id user s = (Return (Some c), s') /\
    users s' = users s /\ bt s' = bt s /\
    get_contact contact_id user s' = (Return None, s') /\
    routes_contacts.get_contact contact_id user s'
    = (Raise routes_contacts.NOT_FOUND, s') /\
    delete_contact contact_id user s' = (Return None, s').
Proof.
  intros Hget. apply get_contact_Some in Hget.
  assert (Hin : In c (rows_with_id contact_id user s)) by (rewrite Hget; now left).
  apply rows_with_id_owned in Hin. destruct Hin as (_ & Hid & _).
  rewrite delete_contact_run, Hget.
  eexists. split; [reflexivity|]. split; [reflexivity|]. split; [reflexivity|].
  pose proof (rows_with_id_deleted contact_id user s c Hid) as Hgone.
  split; [|split].
  - now rewrite get_contact_run, Hgone.
  - unfold routes_contacts.get_contact, bind. now rewrite get_contact_run, Hgone.
  - now rewrite delete_contact_run, Hgone.
Qed.

Lemma filter_key_removes_one {A} (key : A -> Z) (l : list A) (c : A) :
  NoDup (map key l) -> In c l ->
  (forall r, In r (filter (fun r => negb (key r =? key c)) l) <-> In r l /\ r <> c) /\
  S (length (filter (fun r => negb (key r =? key c)) l)) = length l.
Proof.
  intros Hnd Hc. split.
  - intros r. rewrite filter_In, negb_true_iff, Z.eqb_neq. split.
    + intros [Hr Hk]. split; [exact Hr|]. congruence.
    + intros [Hr Hne]. split; [exact Hr|]. intros Hk. apply Hne.
      now apply (primary_key_injective key l).
  - induction l as [|a l IH]; simpl in *; [contradiction|].
    inversion Hnd as [|? ? Ha Hl]; subst.
    destruct Hc as [->|Hc].
    + rewrite Z.eqb_refl. simpl. f_equal.
      rewrite <- (filter_true l) at 2. f_equal. apply filter_ext_in. intros r Hr.
      apply negb_true_iff, Z.eqb_neq. intros Hk. apply Ha. rewrite <- Hk.
      now apply in_map.
    + destruct (Z.eqb_spec (key a) (key c)) as [Hk|_]; simpl.
      * exfalso. apply Ha. rewrite Hk. now apply in_map.
      * f_equal. now apply IH.
Qed.

(** X19.  On a contacts table with unique primary keys, a successful
    [delete_contact] removes the returned contact and nothing else: every
    other row stays, and the table is one row shorter. *)
Theorem delete_contact_removes_one_row
        (contact_id : Z) (user : User.t) (s s' : State) (c : Contact.t) :
  NoDup (map Contact.id (contacts s)) ->
  delete_contact contact_id user s = (Return (Some c), s') ->
  In c (contacts s) /\
  (forall r, In r (contacts s') <-> In r (contacts s) /\ r <> c) /\
  S (length (contacts s')) = length (contacts s).
Proof.
  intros Hnd Hrun. rewrite delete_contact_run in Hrun.
  destruct (rows_with_id contact_id user s) as [|c0 [|y l]] eqn:Hrows; try discriminate.
  injection Hrun as Hc Hs. subst c0 s'.
  assert (Hin : In c (rows_with_id contact_id user s)) by (rewrite Hrows; now left).
  apply rows_with_id_owned in Hin. destruct Hin as (Hin & _ & _).
  split; [exact Hin|]. simpl.
  now apply (filter_key_removes_one Contact.id).
Qed.
(** X21.  A page of [get_contacts] holds only contacts of [user], and its
    length is the smaller of [limit] and the number of the user's contacts
    past [offset]: a limit of 0, or an offset at or beyond the number of
    the user's contacts, gives the empty list without error. *)
Theorem get_contacts_page_length (limit offset : nat) (user : User.t) (s : State) :
  exists page,
    get_contacts limit offset user s = (Return page, s) /\
    Forall (owned user) page /\
    length page
    = Nat.min limit (length (filter (owned_by user) (contacts s)) - offset) /\
    (limit = 0%nat -> page = []) /\
    ((length (filter (owned_by user) (contacts s)) <= offset)%nat -> page = []).
Proof.
  pose proof (row_order_permutes limit offset (filter (owned_by user) (contacts s)))
    as Hperm.
  eexists. split; [reflexivity|]. split; [|split; [|split]].
  - eapply incl_Forall; [|apply (Forall_owned_filter user (contacts s))].
    eapply incl_tran; [apply incl_firstn|].
    eapply incl_tran; [apply incl_skipn|].
    intros c Hc. eapply Permutation_in; [exact Hperm | exact Hc].
  - rewrite length_firstn, length_skipn. now rewrite (Permutation_length Hperm).
  - intros ->. reflexivity.
  - intros Hle. rewrite skipn_all2; [apply firstn_nil|].
    now rewrite (Permutation_length Hperm).
Qed.

(** X22.  No contact operation touches the users table or the queue of
    background tasks, whatever its outcome, and the four read operations
    (page, search, lookup by id, upcoming birthdays) leave the whole state
    as it was, at the route level as in the repository. *)
Theorem contact_routes_frame (user : User.t) (s : State) :
  (forall limit offset, snd (routes_contacts.get_contacts limit offset user s) = s) /\
  (forall query, snd (routes_contacts.search_contacts query user s) = s) /\
  (forall contact_id, snd (routes_contacts.get_contact contact_id user s) = s) /\
  (forall today, snd (routes_contacts.get_upcoming_birthdays today user s) = s) /\
  (forall body,
      users (snd (routes_contacts.create_contact body user s)) = users s /\
      bt (snd (routes_contacts.create_contact body user s)) = bt s) /\
  (forall body contact_id,
      users (snd (routes_contacts.update_contact body contact_id user s)) = users s /\
      bt (snd (routes_contacts.update_contact body contact_id user s)) = bt s) /\
  (forall contact_id,
      users (snd (routes_contacts.delete_contact contact_id user s)) = users s /\
      bt (snd (routes_contacts.delete_contact contact_id user s)) = bt s).
Proof.
  repeat apply conj; try reflexivity.
  - intros contact_id. unfold routes_contacts.get_contact, bind.
    rewrite get_contact_run.
    now destruct (rows_with_id contact_id user s) as [|c [|y l]].
  - intros body. unfold routes_contacts.create_contact.
    rewrite create_contact_run. now destruct (fits_columns body).
  - intros body contact_id. unfold routes_contacts.update_contact, bind.
    rewrite update_contact_run.
    destruct (rows_with_id contact_id user s) as [|c [|y l]]; auto.
    destruct (ContactUpdateSchema.firstname body), (ContactUpdateSchema.surname body),
             (ContactUpdateSchema.email body), (ContactUpdateSchema.phone body); auto.
  - intros contact_id. unfold routes_contacts.delete_contact, bind.
    rewrite delete_contact_run.
    destruct (rows_with_id contact_id user s) as [|c [|y l]]; auto.
Qed.

(** Deleting by primary key cannot create a duplicate key. *)
Lemma delete_keeps_keys (rows : list Contact.t) (c : Contact.t) :
  NoDup (map Contact.id rows) ->
  NoDup (map Contact.id
             (filter (fun r => negb (Contact.id r =? Contact.id c)) rows)).
Proof.
  intros Hkeys. induction rows as [|row rows IH]; simpl; [exact Hkeys|].
  apply NoDup_cons_iff in Hkeys. destruct Hkeys as [Hrow Hrest].
  destruct (Contact.id row =? Contact.id c); simpl; [now apply IH|].
  apply NoDup_cons; [|now apply IH].
  rewrite in_map_iff. intros (r & Hsame & Hr).
  apply filter_In in Hr. apply Hrow. rewrite <- Hsame. apply in_map. tauto.
Qed.

(** X23.  The three writers of the contacts table keep its primary key
    unique: when no two rows share an id before [create_contact],
    [update_contact] or [delete_contact], none do afterwards, whether the
    call returned or raised. *)
Theorem contacts_keep_primary_key_unique (user : User.t) (s s' : State) :
  NoDup (map Contact.id (contacts s)) ->
  (exists body, s' = snd (create_contact body user s)) \/
  (exists contact_id body, s' = snd (update_contact contact_id body user s)) \/
  (exists contact_id, s' = snd (delete_contact contact_id user s)) ->
  NoDup (map Contact.id (contacts s')).
Proof.
  intros Hnd [(body & ->)|[(contact_id & body & ->)|(contact_id & ->)]].
  - rewrite create_contact_run. destruct (fits_columns body); [|exact Hnd].
    simpl. rewrite map_app. simpl. apply NoDup_snoc; [exact Hnd|apply next_id_fresh].
  - rewrite update_contact_run.
    destruct (rows_with_id contact_id user s) as [|c [|y l]]; trivial.
    destruct (ContactUpdateSchema.firstname body), (ContactUpdateSchema.surname body),
             (ContactUpdateSchema.email body), (ContactUpdateSchema.phone body); trivial.
    simpl. rewrite map_map.
    erewrite map_ext; [exact Hnd|].
    intros r. now destruct (Contact.id r =? Contact.id c).
  - rewrite delete_contact_run.
    destruct (rows_with_id contact_id user s) as [|c [|y l]]; trivial.
    simpl. now apply delete_keeps_keys.
Qed.
End ContactsMore.

(** ** The avatar route *)
Section Avatar.
Context {cloudinary : Cloudinary}.
Import repositories_users.

(** X24.  [update_avatar_user] uploads under the public id
    "ContactsApp/<username>" and stores, for the user found by the current
    user's e-mail, the URL built for that id at 250x250, crop "fill", and
    the version of the upload; it returns the stored user.  When the upload
    raises, the error is passed on and nothing is stored. *)
Theorem update_avatar_user_stores_url (file : string) (user stored : User.t) (s : State) :
  NoDup (map User.id (users s)) ->
  fst (get_user_by_email (User.email user) s) = Return (Some stored) ->
  let public_id := "ContactsApp/" ++ User.username user in
  (forall version,
      uploader_upload file public_id = Return version ->
      exists user' s',
        routes_users.update_avatar_user file user s = (Return user', s') /\
        user' = User.set_avatar (Some (build_url public_id 250 250 "fill" version)) stored /\
        fst (get_user_by_email (User.email user) s') = Return (Some user') /\
        (forall email, email <> User.email user ->
           fst (get_user_by_email email s') = fst (get_user_by_email email s)) /\
        contacts s' = contacts s /\ bt s' = bt s) /\
  (forall e,
      uploader_upload file public_id = Raise e ->
      routes_users.update_avatar_user file user s = (Raise e, s)).
Proof.
  intros Hnd Hstored public_id. split.
  - intros version Hup.
    set (url := build_url public_id 250 250 "fill" version).
    pose proof (update_avatar_found (User.email user) url stored s Hstored) as Hrun.
    exists (User.set_avatar (Some url) stored),
           (snd (update_row stored (User.set_avatar (Some url)) s)).
    split.
    + unfold routes_users.update_avatar_user, bind at 1, lift.
      fold public_id. rewrite Hup. unfold bind. fold url. now rewrite Hrun.
    + split; [reflexivity|].
      apply (update_row_then_lookup (User.email user) stored
                                    (User.set_avatar (Some url))); trivial.
  - intros e Hup. unfold routes_users.update_avatar_user, bind at 1, lift.
    fold public_id. now rewrite Hup.
Qed.
End Avatar.

(** ** More concrete runs *)

Ltac fresh_email := intros u [<-|[<-|[]]]; discriminate.

Lemma create_user_then_lookup_witness :
  exists new_user s',
    repositories_users.create_user (env := reference.env) sample.new_user sample.db
    = (Return new_user, s') /\
    fst (repositories_users.get_user_by_email "f@x.com" s') = Return (Some new_user) /\
    User.confirmed new_user = false.
Proof.
  destruct (create_user_then_lookup (env := reference.env) sample.new_user sample.db)
    as (new_user & s' & Hrun & _ & _ & _ & _ & _ & _ & _ & Hc & _ & Hget & _).
  - fresh_email.
  - exists new_user, s'. auto.
Defined.

Lemma update_token_then_lookup_witness :
  exists s',
    repositories_users.update_token sample.bob (Some "t0k3n") sample.db = (Return tt, s') /\
    fst (repositories_users.get_user_by_email "b@x.com" s')
    = Return (Some (User.set_refresh_token (Some "t0k3n") sample.bob)) /\
    fst (repositories_users.get_user_by_email "a@x.com" s') = Return (Some sample.alice).
Proof.
  destruct (update_token_then_lookup sample.bob (Some "t0k3n") sample.db)
    as (s' & Hrun & Hget & Hother & _).
  - no_dup.
  - reflexivity.
  - exists s'. split; [exact Hrun|]. split; [exact Hget|].
    rewrite (Hother "a@x.com"); [reflexivity | discriminate].
Defined.

Lemma repository_confirmed_email_witness :
  exists s',
    repositories_users.confirmed_email "b@x.com" sample.db = (Return tt, s') /\
    fst (repositories_users.get_user_by_email "b@x.com" s')
    = Return (Some (User.set_confirmed true sample.bob)).
Proof.
  destruct (repository_confirmed_email_sets_flag "b@x.com" sample.db) as [Hfound _].
  - no_dup.
  - destruct (Hfound sample.bob eq_refl) as (s' & Hrun & Hget & _).
    exists s'. auto.
Defined.

Lemma update_avatar_then_lookup_witness :
  exists s',
    repositories_users.update_avatar "a@x.com" "https://img.example/a.png" sample.db
    = (Return (User.set_avatar (Some "https://img.example/a.png") sample.alice), s').
Proof.
  destruct (update_avatar_then_lookup "a@x.com" "https://img.example/a.png" sample.db)
    as [Hfound _].
  - no_dup.
  - destruct (Hfound sample.alice eq_refl) as (user' & s' & Hrun & -> & _).
    exists s'. exact Hrun.
Defined.

Lemma user_directory_keeps_keys_unique_witness :
  NoDup (map User.email
             (users (snd (repositories_users.create_user (env := reference.env)
                                                         sample.new_user sample.db)))).
Proof.
  apply (user_directory_keeps_keys_unique (env := reference.env) sample.db).
  - no_dup.
  - no_dup.
  - right. right. right. exists sample.new_user. reflexivity.
Defined.

Lemma signup_then_login_is_refused_witness :
  fst (routes_auth.login (auth_service := reference.auth_service) 120 "f@x.com" "s3cret"
         (snd (routes_auth.signup (auth_service := reference.auth_service)
                                  (env := reference.env)
                                  sample.new_user "http://localhost:8000/" sample.db)))
  = Raise (HTTPException HTTP_401_UNAUTHORIZED "Email is not confirmed").
Proof.
  assert (Hfresh : forall u, In u (users sample.db) -> User.email u <> "f@x.com")
    by fresh_email.
  exact (f_equal fst
           (signup_then_login_is_refused
              (auth_service := reference.auth_service) (env := reference.env)
              sample.new_user "http://localhost:8000/" "s3cret" 120 sample.db Hfresh)).
Defined.

Lemma signup_confirm_login_witness :
  exists s2 s3,
    routes_auth.confirmed_email
      (auth_service := reference.auth_service) 130
      (reference.create_email_token 125 "f@x.com")
      (snd (routes_auth.signup (auth_service := reference.auth_service)
                               (env := reference.env)
                               sample.new_user "http://localhost:8000/" sample.db))
    = (Return (routes_auth.mkMessage "Email confirmed"), s2) /\
    fst (routes_auth.login (auth_service := reference.auth_service)
                           140 "f@x.com" "s3cret" s2)
    = Return (TokenSchema.mk (reference.create_access_token 140 "f@x.com")
                             (reference.create_refresh_token 140 "f@x.com") "bearer") /\
    s3 = snd (routes_auth.login (auth_service := reference.auth_service)
                                140 "f@x.com" "s3cret" s2).
Proof.
  destruct (signup_confirm_login
              (auth_service := reference.auth_service) (env := reference.env)
              sample.new_user "http://localhost:8000/"
              (reference.create_email_token 125 "f@x.com") 130 140 sample.db)
    as (s2 & s3 & Hconfirm & Hlogin).
  - fresh_email.
  - reflexivity.
  - reflexivity.
  - exists s2, s3. split; [exact Hconfirm|]. simpl in Hlogin. rewrite Hlogin. auto.
Defined.

Lemma login_then_refresh_witness :
  exists s2 user',
    fst (repositories_users.get_user_by_email "a@x.com" s2) = Return (Some user') /\
    User.refresh_token user' = Some (reference.create_refresh_token 150 "a@x.com").
Proof.
  destruct (login_then_refresh
              (auth_service := reference.auth_service)
              120 150 "a@x.com" "pw123"
              (TokenSchema.mk (reference.create_access_token 120 "a@x.com")
                              (reference.create_refresh_token 120 "a@x.com") "bearer")
              sample.db
              (snd (routes_auth.login (auth_service := reference.auth_service)
                                      120 "a@x.com" "pw123" sample.db)))
    as (s2 & user' & _ & Hget & Hstored).
  - reflexivity.
  - reflexivity.
  - exists s2, user'. auto.
Defined.

Lemma refresh_mismatch_closes_session_witness :
  fst (routes_auth.refresh_token
         (auth_service := reference.auth_service) 160 sample.alice_token
         (snd (routes_auth.refresh_token (auth_service := reference.auth_service)
                                         150 sample.stale_token sample.db)))
  = Raise (HTTPException HTTP_401_UNAUTHORIZED "Invalid refresh token").
Proof.
  assert (Hstale : User.refresh_token sample.alice <> Some sample.stale_token)
    by discriminate.
  exact (f_equal fst
           (refresh_mismatch_closes_session
              (auth_service := reference.auth_service)
              150 sample.stale_token "a@x.com" sample.alice sample.db
              eq_refl eq_refl Hstale 160 sample.alice_token eq_refl)).
Defined.

Lemma request_email_effect_witness :
  exists msg s',
    routes_auth.request_email "b@x.com" "http://localhost:8000/" sample.db
    = (Return msg, s') /\
    bt s' = [send_email "b@x.com" "bob" "http://localhost:8000/"].
Proof.
  destruct (request_email_effect "b@x.com" "http://localhost:8000/" sample.bob sample.db)
    as (msg & s' & Hrun & _ & _ & _ & Hqueued).
  - reflexivity.
  - exists msg, s'. split; [exact Hrun|]. now destruct (Hqueued eq_refl).
Defined.

Lemma update_contact_then_get_witness :
  exists c' s',
    repositories_contacts.update_contact 1 fixtures.carol_update sample.alice sample.db
    = (Return (Some c'), s') /\
    Contact.firstname c' = "Caroline" /\
    repositories_contacts.get_contact 1 sample.alice s' = (Return (Some c'), s').
Proof.
  destruct (update_contact_then_get
              1 fixtures.carol_update sample.alice sample.db sample.carol_2024
              "Caroline" "Jones" "carol@example.com" "12345")
    as (c' & s' & Hrun & -> & Hget & _); try reflexivity.
  eexists. exists s'. split; [exact Hrun|]. split; [reflexivity|exact Hget].
Defined.

Lemma update_contact_missing_field_witness :
  repositories_contacts.update_contact 1 fixtures.partial_update sample.alice sample.db
  = (Raise IntegrityError, sample.db).
Proof.
  apply (update_contact_missing_field 1 fixtures.partial_update sample.alice sample.db
                                      sample.carol_2024).
  - reflexivity.
  - left. reflexivity.
Defined.

Lemma delete_contact_then_get_witness :
  exists s',
    repositories_contacts.delete_contact 1 sample.alice sample.db
    = (Return (Some sample.carol_2024), s') /\
    routes_contacts.get_contact 1 sample.alice s' = (Raise routes_contacts.NOT_FOUND, s').
Proof.
  destruct (delete_contact_then_get 1 sample.alice sample.db sample.carol_2024)
    as (s' & Hrun & _ & _ & _ & Hroute & _).
  - reflexivity.
  - exists s'. auto.
Defined.

Lemma delete_contact_removes_one_row_witness :
  length (contacts (snd (repositories_contacts.delete_contact 1 sample.alice sample.db)))
  = 2%nat.
Proof.
  destruct (delete_contact_removes_one_row
              1 sample.alice sample.db
              (snd (repositories_contacts.delete_contact 1 sample.alice sample.db))
              sample.carol_2024)
    as (_ & _ & Hlen).
  - no_dup.
  - reflexivity.
  - apply eq_add_S. exact Hlen.
Defined.

Lemma contacts_keep_primary_key_unique_witness :
  NoDup (map Contact.id
             (contacts (snd (repositories_contacts.create_contact
                               fixtures.gina sample.alice sample.db)))).
Proof.
  apply (contacts_keep_primary_key_unique sample.alice sample.db).
  - no_dup.
  - left. exists fixtures.gina. reflexivity.
Defined.


Lemma update_avatar_user_witness :
  exists user' s',
    routes_users.update_avatar_user (cloudinary := fixtures.cloudinary)
                                    "png-bytes" sample.alice sample.db
    = (Return user', s') /\
    User.avatar user'
    = Some "https://res.cloudinary.com/demo/image/upload/v7/ContactsApp/alice".
Proof.
  destruct (update_avatar_user_stores_url
              (cloudinary := fixtures.cloudinary)
              "png-bytes" sample.alice sample.alice sample.db)
    as [Hstored _].
  - no_dup.
  - reflexivity.
  - destruct (Hstored (Some 7) eq_refl) as (user' & s' & Hrun & -> & _).
    eexists. exists s'. split; [exact Hrun | reflexivity].
Defined.

Lemma signup_twice_conflicts_witness :
  fst (routes_auth.signup
         (auth_service := reference.auth_service) (env := reference.env)
         (UserSchema.mk "frank2" "f@x.com" "other") "http://localhost:8000/"
         (snd (routes_auth.signup (auth_service := reference.auth_service)
                                  (env := reference.env)
                                  sample.new_user "http://localhost:8000/" sample.db)))
  = Raise (HTTPException HTTP_409_CONFLICT "Account already exists").
Proof.
  destruct (signup_twice_conflicts
              (auth_service := reference.auth_service) (env := reference.env)
              sample.new_user (UserSchema.mk "frank2" "f@x.com" "other")
              "http://localhost:8000/" "http://localhost:8000/" sample.db)
    as (_ & _ & Hrun).
  - no_dup.
  - no_dup.
  - reflexivity.
  - now rewrite Hrun.
Defined.
